(** * Verification of the file watcher of obsidian-sync (package [watcher])

    A shallow embedding of [internal/watcher/watcher.go]: the debouncing
    event buffer ([bufferEvent], [processBufferedEvents]), the recursive
    registration of directories ([addRecursive], [handleDirectoryEvent]) and
    the life cycle ([New], [Start], [Stop]).

    Go values are modelled as follows.
    - strings are [string] (sequences of bytes, as in Go);
    - [time.Time] is the number of nanoseconds on the clock, a [Z];
      [time.Duration] is an int64 number of nanoseconds;
    - [fsnotify.Op] is a uint32 bit mask, a [Z] tested with [Z.land];
    - [map[string]*fileEvent] is a [gmap string loc] together with a heap of
      [fileEvent] cells, so that the pointer stored in the map and the local
      variable [fe] alias the same cell;
    - [*time.Timer] is a location in the list of timers of the runtime;
    - the logger is a list of messages, one constructor per call site. *)

From Stdlib Require Import ZArith Lia Ascii String.
From stdpp Require Import base option list gmap strings relations.

Local Open Scope Z_scope.

(** ** Package [time] *)

Module time.

(** [time.Duration] is an int64 count of nanoseconds. *)
Definition Duration := Z.

Definition Nanosecond : Duration := 1.
Definition Millisecond : Duration := 1000000 * Nanosecond.
Definition Second : Duration := 1000 * Millisecond.

Definition minDuration : Duration := - 2 ^ 63.
Definition maxDuration : Duration := 2 ^ 63 - 1.

(** A reading of the clock, in nanoseconds. *)
Definition Time := Z.

(** [t.Sub(u)]: the difference [t - u], replaced by the largest (smallest)
    duration when it does not fit in an int64. *)
Definition Sub (t u : Time) : Duration :=
  let d := t - u in
  if d <? minDuration then minDuration
  else if maxDuration <? d then maxDuration
  else d.

End time.

(** ** Package [fsnotify]: operations and events *)

Module fsnotify.

(** [type Op uint32], with [Create Op = 1 << iota] and the following. *)
Definition Op := Z.

Definition Create : Op := 1.
Definition Write : Op := 2.
Definition Remove : Op := 4.
Definition Rename : Op := 8.
Definition Chmod : Op := 16.

(** The test [op&bit == bit] of the source. *)
Definition Has (op bit : Op) : bool := Z.land op bit =? bit.

Record Event := mkEvent { Name : string; EvOp : Op }.

End fsnotify.

(** ** Packages [strings] and [path/filepath] (Unix) *)

Module strings.

(** [strings.HasPrefix(s, prefix)] *)
Definition HasPrefix (s pre : string) : bool := String.prefix pre s.

End strings.

Module filepath.

Definition IsPathSeparator (c : ascii) : bool := Ascii.eqb c "/".

(** [s[i:]] *)
Definition slice_from (i : nat) (s : string) : string :=
  String.substring i (String.length s - i) s.

(** [s[:n]] *)
Definition slice_to (n : nat) (s : string) : string :=
  String.substring 0 n s.

(** The loop of [Ext], the index running down from [len(path)-1]; the
    argument [n] is the index plus one.
<<
    for i := len(path) - 1; i >= 0 && !os.IsPathSeparator(path[i]); i-- {
        if path[i] == '.' { return path[i:] }
    }
    return ""
>> *)
Fixpoint Ext_from (path : string) (n : nat) : string :=
  match n with
  | O => EmptyString
  | S i =>
      match String.get i path with
      | None => EmptyString
      | Some c =>
          if IsPathSeparator c then EmptyString
          else if Ascii.eqb c "." then slice_from i path
          else Ext_from path i
      end
  end.

Definition Ext (path : string) : string :=
  Ext_from path (String.length path).

(** Strip trailing slashes: the length that remains. *)
Fixpoint strip_trailing (path : string) (n : nat) : nat :=
  match n with
  | O => O
  | S i =>
      match String.get i path with
      | Some c => if IsPathSeparator c then strip_trailing path i else n
      | None => n
      end
  end.

(** The index after the last separator among the first [n] bytes, or 0. *)
Fixpoint last_element_start (path : string) (n : nat) : nat :=
  match n with
  | O => O
  | S i =>
      match String.get i path with
      | Some c => if IsPathSeparator c then n else last_element_start path i
      | None => O
      end
  end.

(** [filepath.Base]: the last element of the path, trailing separators
    removed; ["."] for the empty path and ["/"] for a path of separators
    only. There is no volume name on Unix. *)
Definition Base (path : string) : string :=
  if String.eqb path EmptyString then "."%string
  else
    let path1 := slice_to (strip_trailing path (String.length path)) path in
    let path2 := slice_from (last_element_start path1 (String.length path1)) path1 in
    if String.eqb path2 EmptyString then "/"%string else path2.

(** The buffer of [Clean] is kept with its last byte first: [out.append(c)]
    is [c :: out], and [out.w] is [length out].

    Backtracking over the last element, for a [..]:
<<
    out.w--
    for out.w > dotdot && !os.IsPathSeparator(out.index(out.w)) { out.w-- }
>> *)
Fixpoint backtrack (dotdot : nat) (out : list ascii) : list ascii :=
  match out with
  | [] => []
  | c :: out1 =>
      if (dotdot <? length out1)%nat && negb (IsPathSeparator c)
      then backtrack dotdot out1
      else out1
  end.

(** Copying one element; what is left of the path is returned with the
    buffer.
<<
    for ; r < n && !os.IsPathSeparator(path[r]); r++ { out.append(path[r]) }
>> *)
Fixpoint copy_element (rest out : list ascii) : list ascii * list ascii :=
  match rest with
  | [] => ([], out)
  | c :: rest1 =>
      if IsPathSeparator c then (rest, out) else copy_element rest1 (c :: out)
  end.

(** [r+k == n || os.IsPathSeparator(path[r+k])], on [path[r+k:]] *)
Definition ends_element (rest : list ascii) : bool :=
  match rest with
  | [] => true
  | c :: _ => IsPathSeparator c
  end.

(** The loop [for r < n { switch { ... } }] of [Clean], on [path[r:]]. Each
    turn moves [r] forward, so as many turns as the path has bytes are
    enough ([clean_loop_fuel] below).
<<
    case os.IsPathSeparator(path[r]):
        r++
    case path[r] == '.' && (r+1 == n || os.IsPathSeparator(path[r+1])):
        r++
    case path[r] == '.' && path[r+1] == '.' && (r+2 == n || os.IsPathSeparator(path[r+2])):
        r += 2
        switch {
        case out.w > dotdot:
            (backtrack)
        case !rooted:
            if out.w > 0 { out.append(Separator) }
            out.append('.'); out.append('.')
            dotdot = out.w
        }
    default:
        if rooted && out.w != 1 || !rooted && out.w != 0 { out.append(Separator) }
        (copy the element)
>> *)
Fixpoint clean_loop (fuel : nat) (rooted : bool) (rest out : list ascii)
    (dotdot : nat) : list ascii :=
  match fuel with
  | O => out
  | S fuel =>
      match rest with
      | [] => out
      | c :: rest1 =>
          let element :=
            let out1 :=
              if (rooted && negb (length out =? 1)%nat)
                 || (negb rooted && negb (length out =? 0)%nat)
              then "/"%char :: out else out in
            let '(rest', out2) := copy_element rest out1 in
            clean_loop fuel rooted rest' out2 dotdot in
          if IsPathSeparator c then clean_loop fuel rooted rest1 out dotdot
          else if Ascii.eqb c "." && ends_element rest1 then
            clean_loop fuel rooted rest1 out dotdot
          else
            match rest1 with
            | c1 :: rest2 =>
                if Ascii.eqb c "." && Ascii.eqb c1 "." && ends_element rest2 then
                  if (dotdot <? length out)%nat then
                    clean_loop fuel rooted rest2 (backtrack dotdot out) dotdot
                  else if negb rooted then
                    let out1 :=
                      if (0 <? length out)%nat then "/"%char :: out else out in
                    let out2 := "."%char :: "."%char :: out1 in
                    clean_loop fuel rooted rest2 out2 (length out2)
                  else clean_loop fuel rooted rest2 out dotdot
                else element
            | [] => element
            end
      end
  end.

(** [filepath.Clean] on Unix: no volume name, and [FromSlash] is the
    identity. The empty path and an empty result give ["."]; a rooted path
    starts with the separator in the buffer and [r, dotdot = 1, 1]. *)
Definition Clean (path : string) : string :=
  match list_ascii_of_string path with
  | [] => "."%string
  | c :: rest =>
      let out :=
        if IsPathSeparator c
        then clean_loop (S (length rest)) true rest ["/"%char] 1
        else clean_loop (S (length rest)) false (c :: rest) [] 0 in
      match out with
      | [] => "."%string
      | _ => string_of_list_ascii (rev out)
      end
  end.

(** [filepath.Join(dir, name)]: the elements from the first non-empty one
    on, joined by the separator and cleaned.
<<
    for i, e := range elem {
        if e != "" { return Clean(strings.Join(elem[i:], string(Separator))) }
    }
    return ""
>> *)
Definition Join (dir name : string) : string :=
  if negb (String.eqb dir EmptyString)
  then Clean (String.append dir (String.append "/" name))
  else if negb (String.eqb name EmptyString) then Clean name
  else EmptyString.

End filepath.

(** ** [isMarkdownFile] *)

Definition isMarkdownFile (filename : string) : bool :=
  if negb (String.eqb (filepath.Ext filename) ".md") then false
  else
    let base := filepath.Base filename in
    if strings.HasPrefix base "." || strings.HasPrefix base "~" then false
    else true.

(** ** The logger

    One constructor for each call of the logger in the watcher; the level is
    the one of the function called ([Debugf], [Infof], [Warnf], [Errorf]). *)

Inductive Level := LDebug | LInfo | LWarn | LError.

Inductive Msg :=
  | MsgCreateEvent (name : string)        (* Debugf "CREATE event for" *)
  | MsgWriteEvent (name : string)         (* Debugf "WRITE event for" *)
  | MsgRemoveEvent (name : string)        (* Debugf "REMOVE event for" *)
  | MsgRenameEvent (name : string)        (* Debugf "RENAME event for" *)
  | MsgNewDirectory (name : string)       (* Infof "New directory created" *)
  | MsgFailedWatchNew (name : string)     (* Warnf "Failed to watch new directory" *)
  | MsgFileDeleted (path : string)        (* Infof "File deleted" *)
  | MsgFileCreatedEmpty (path : string)   (* Infof "File created (empty)" *)
  | MsgFileCreated (path : string)        (* Infof "File created" *)
  | MsgFileModified (path : string)       (* Infof "File modified" *)
  | MsgUnknownPattern (path : string)     (* Warnf "Unknown event pattern for" *)
  | MsgErrorAccessing (path : string)     (* Warnf "Error accessing" *)
  | MsgFailedWatchDir (path : string)     (* Warnf "Failed to watch directory" *)
  | MsgAddedDir (path : string)           (* Debugf "Added directory to watch" *)
  | MsgFailedCreateWatcher                (* Errorf "Failed to create file watcher" *)
  | MsgFailedAddDirs                      (* Errorf "Failed to add directories" *)
  | MsgWatching (path : string).          (* Infof "Watching for ... for changes" *)

Definition level (m : Msg) : Level :=
  match m with
  | MsgCreateEvent _ | MsgWriteEvent _ | MsgRemoveEvent _ | MsgRenameEvent _
  | MsgAddedDir _ => LDebug
  | MsgNewDirectory _ | MsgFileDeleted _ | MsgFileCreatedEmpty _
  | MsgFileCreated _ | MsgFileModified _ | MsgWatching _ => LInfo
  | MsgFailedWatchNew _ | MsgUnknownPattern _ | MsgErrorAccessing _
  | MsgFailedWatchDir _ => LWarn
  | MsgFailedCreateWatcher | MsgFailedAddDirs => LError
  end.

(** The logical events. The source reports them through [logger.Infof], at
    the places marked "Send ... event to queue". *)
Inductive EventKind := Deleted | CreatedEmpty | Created | Modified.

Definition dispatch_of (m : Msg) : option (EventKind * string) :=
  match m with
  | MsgFileDeleted p => Some (Deleted, p)
  | MsgFileCreatedEmpty p => Some (CreatedEmpty, p)
  | MsgFileCreated p => Some (Created, p)
  | MsgFileModified p => Some (Modified, p)
  | _ => None
  end.

(** The logical events of a log, in order. *)
Definition dispatched (log : list Msg) : list (EventKind * string) :=
  omap dispatch_of log.

(** The logical events of a log for one path. *)
Definition dispatched_for (p : string) (log : list Msg) : list EventKind :=
  omap (fun m => match dispatch_of m with
                 | Some (k, q) => if String.eqb q p then Some k else None
                 | None => None
                 end) log.

(** ** The data of the watcher *)

(** A pointer is a position in a list of cells. *)
Abbreviation loc := nat.

Record fileEvent := mkFileEvent {
  fe_path : string;
  isNew : bool;
  isModified : bool;
  isDeleted : bool;
  lastSeen : time.Time
}.

Definition set_lastSeen (t : time.Time) (fe : fileEvent) : fileEvent :=
  mkFileEvent (fe_path fe) (isNew fe) (isModified fe) (isDeleted fe) t.
Definition set_isNew (b : bool) (fe : fileEvent) : fileEvent :=
  mkFileEvent (fe_path fe) b (isModified fe) (isDeleted fe) (lastSeen fe).
Definition set_isModified (b : bool) (fe : fileEvent) : fileEvent :=
  mkFileEvent (fe_path fe) (isNew fe) b (isDeleted fe) (lastSeen fe).
Definition set_isDeleted (b : bool) (fe : fileEvent) : fileEvent :=
  mkFileEvent (fe_path fe) (isNew fe) (isModified fe) b (lastSeen fe).

(** A timer of the runtime, created by [time.AfterFunc]: the time at which
    it is due, and whether it is still armed, was stopped, or has run its
    function. *)
Inductive TimerState := TimerActive | TimerStopped | TimerFired.

Record Timer := mkTimer { when : time.Time; tstate : TimerState }.

(** The [fsnotify.Watcher]: the paths it watches, and whether it is closed. *)
Record FsWatcher := mkFsWatcher { watches : gset string; fsClosed : bool }.

Inductive ChanState := ChanOpen | ChanClosed.

(** The struct [Watcher]. *)
Record Watcher := mkWatcher {
  path : string;
  fsWatcher : option FsWatcher;
  done : ChanState;
  eventBuffer : gmap string loc;
  debounceTimer : option loc
}.

(** The state of the program: the watcher, the heap cells that the pointers
    of [eventBuffer] refer to, and the timers of the runtime. *)
Record State := mkState {
  self : Watcher;
  heap : list fileEvent;
  timers : list Timer
}.

Definition set_fsWatcher (f : option FsWatcher) (s : State) : State :=
  let w := self s in
  mkState (mkWatcher (path w) f (done w) (eventBuffer w) (debounceTimer w))
          (heap s) (timers s).
Definition set_done (c : ChanState) (s : State) : State :=
  let w := self s in
  mkState (mkWatcher (path w) (fsWatcher w) c (eventBuffer w) (debounceTimer w))
          (heap s) (timers s).
Definition set_eventBuffer (m : gmap string loc) (s : State) : State :=
  let w := self s in
  mkState (mkWatcher (path w) (fsWatcher w) (done w) m (debounceTimer w))
          (heap s) (timers s).
Definition set_debounceTimer (t : option loc) (s : State) : State :=
  let w := self s in
  mkState (mkWatcher (path w) (fsWatcher w) (done w) (eventBuffer w) t)
          (heap s) (timers s).
Definition set_heap (h : list fileEvent) (s : State) : State :=
  mkState (self s) h (timers s).
Definition set_timers (ts : list Timer) (s : State) : State :=
  mkState (self s) (heap s) ts.

(** A Go function either returns or panics (a nil pointer dereferenced, a
    closed channel closed again). *)
Inductive Res (A : Type) :=
  | Ok (a : A)
  | Panic (why : string).
Arguments Ok {A} a.
Arguments Panic {A} why.

(** Values of type [error]: the two sentinels of [filepath.WalkDir], and
    the errors of the operating system. *)
Inductive error := SkipDir | SkipAll | OSError (what : string).

(** A file tree as [filepath.WalkDir] sees it: an [os.DirEntry] is a file or
    a directory; for a directory, the entries that [os.ReadDir] returns, and
    whether it returns an error with them. *)
#[local] Set Warnings "-register-all".
Inductive DirEntry :=
  | File (name : string)
  | Dir (name : string) (readErr : bool) (entries : list DirEntry).

Definition d_Name (d : DirEntry) : string :=
  match d with File n => n | Dir n _ _ => n end.

Definition d_IsDir (d : DirEntry) : bool :=
  match d with File _ => false | Dir _ _ _ => true end.

(** What the program reads from outside, at one call:
    - [IsDir p]: [os.Stat(p)] succeeds and reports a directory;
    - [AddFails p]: the operating system refuses to watch [p];
    - [NewWatcherFails]: [fsnotify.NewWatcher()] returns an error;
    - [Lstat p]: the file tree at [p], or nothing when [os.Lstat(p)] fails. *)
Record Env := mkEnv {
  IsDir : string -> bool;
  AddFails : string -> bool;
  NewWatcherFails : bool;
  Lstat : string -> option DirEntry
}.

(** [New] *)
Definition New (path : string) : State :=
  mkState (mkWatcher path None ChanOpen ∅ None) [] [].

(** ** A monad for the methods of the watcher

    A method reads and updates the state, writes to the log, and returns a
    value or panics. *)

Definition M (A : Type) : Type := State -> Res (A * State * list Msg).

#[global] Instance M_ret : MRet M := fun A a s => Ok (a, s, []).

#[global] Instance M_bind : MBind M := fun A B f m s =>
  match m s with
  | Panic why => Panic why
  | Ok (a, s1, l1) =>
      match f a s1 with
      | Panic why => Panic why
      | Ok (b, s2, l2) => Ok (b, s2, l1 ++ l2)
      end
  end.

Definition gets {A} (f : State -> A) : M A := fun s => Ok (f s, s, []).
Definition modify (f : State -> State) : M unit := fun s => Ok (tt, f s, []).
Definition logf (m : Msg) : M unit := fun s => Ok (tt, s, [m]).
Definition panic {A} (why : string) : M A := fun _ => Panic why.

Definition nil_deref : string := "invalid memory address or nil pointer dereference".

(** Heap cells of type [fileEvent]. *)

(** [&fileEvent{...}] *)
Definition alloc (fe : fileEvent) : M loc := fun s =>
  Ok (length (heap s), set_heap (heap s ++ [fe]) s, []).

(** A read through a pointer. *)
Definition load (p : loc) : M fileEvent := fun s =>
  match heap s !! p with
  | Some fe => Ok (fe, s, [])
  | None => Panic nil_deref
  end.

(** An assignment to a field through a pointer. *)
Definition store (p : loc) (f : fileEvent -> fileEvent) : M unit := fun s =>
  match heap s !! p with
  | Some fe => Ok (tt, set_heap (<[p := f fe]> (heap s)) s, [])
  | None => Panic nil_deref
  end.

(** Timers. A call of a method is taken to be instantaneous: the clock reads
    [now] throughout. *)

(** [time.AfterFunc(d, f)] at time [now]: a new armed timer, due at
    [now + d]. Which function it runs is fixed: [processBufferedEvents]. *)
Definition AfterFunc (d : time.Duration) (now : time.Time) : M loc := fun s =>
  Ok (length (timers s),
      set_timers (timers s ++ [mkTimer (now + d) TimerActive]) s, []).

(** [t.Stop()]: an armed timer is disarmed; a timer that was stopped or has
    fired is left as it is. *)
Definition Timer_Stop (t : loc) : M unit := fun s =>
  match timers s !! t with
  | Some tm =>
      match tstate tm with
      | TimerActive =>
          Ok (tt, set_timers (<[t := mkTimer (when tm) TimerStopped]> (timers s)) s, [])
      | _ => Ok (tt, s, [])
      end
  | None => Panic nil_deref
  end.

(** [fsnotify.Watcher.Add] and [Close]. *)

(** [w.Add(name)]: the watcher with the watch added, and whether an error
    is returned. *)
Definition Watcher_Add (env : Env) (name : string) (fw : FsWatcher)
  : FsWatcher * bool :=
  if fsClosed fw then (fw, true)
  else if AddFails env name then (fw, true)
  else (mkFsWatcher ({[name]} ∪ watches fw) false, false).

(** [w.Close()]: all watches are removed; no error. *)
Definition Watcher_Close (fw : FsWatcher) : FsWatcher := mkFsWatcher ∅ true.

(** [w.fsWatcher.Add(name)] on the field of the watcher: whether an error
    is returned. *)
Definition fsWatcher_Add (env : Env) (name : string) : M bool := fun s =>
  match fsWatcher (self s) with
  | None => Panic nil_deref
  | Some fw =>
      let '(fw', err) := Watcher_Add env name fw in
      Ok (err, set_fsWatcher (Some fw') s, [])
  end.

(** ** [isDirectory] *)

Definition isDirectory (env : Env) (filename : string) : bool :=
  IsDir env filename.

(** ** [handleDirectoryEvent] *)

Definition handleDirectoryEvent (env : Env) (event : fsnotify.Event) : M unit :=
  if fsnotify.Has (fsnotify.EvOp event) fsnotify.Create then
    logf (MsgNewDirectory (fsnotify.Name event));;
    err ← fsWatcher_Add env (fsnotify.Name event);
    if (err : bool) then logf (MsgFailedWatchNew (fsnotify.Name event))
    else mret tt
  else mret tt.

(** ** [bufferEvent] *)

Definition debounce : time.Duration := 100 * time.Millisecond.

(** The part of [bufferEvent] after the two filters. *)
Definition bufferFileEvent (now : time.Time) (event : fsnotify.Event) : M unit :=
  let name := fsnotify.Name event in
  let op := fsnotify.EvOp event in
  buf ← gets (fun s => eventBuffer (self s));
  fe ← match buf !! name with
       | Some fe => mret fe
       | None =>
           fe ← alloc (mkFileEvent name false false false now);
           modify (fun s => set_eventBuffer (<[name := fe]> (eventBuffer (self s))) s);;
           mret fe
       end;
  store fe (set_lastSeen now);;
  (if fsnotify.Has op fsnotify.Create then
     logf (MsgCreateEvent name);; store fe (set_isNew true)
   else mret tt);;
  (if fsnotify.Has op fsnotify.Write then
     logf (MsgWriteEvent name);; store fe (set_isModified true)
   else mret tt);;
  (if fsnotify.Has op fsnotify.Remove then
     logf (MsgRemoveEvent name);; store fe (set_isDeleted true)
   else mret tt);;
  (if fsnotify.Has op fsnotify.Rename then
     logf (MsgRenameEvent name);; store fe (set_isDeleted true)
   else mret tt);;
  t ← gets (fun s => debounceTimer (self s));
  match t with
  | Some t => Timer_Stop t
  | None => mret tt
  end;;
  t' ← AfterFunc debounce now;
  modify (set_debounceTimer (Some t')).

Definition bufferEvent (env : Env) (now : time.Time) (event : fsnotify.Event)
  : M unit :=
  if negb (isMarkdownFile (fsnotify.Name event))
     && negb (isDirectory env (fsnotify.Name event))
  then mret tt
  else if isDirectory env (fsnotify.Name event)
  then handleDirectoryEvent env event
  else bufferFileEvent now event.

(** ** [processBufferedEvents] *)

Definition StaleThreshold : time.Duration := 5 * time.Second.

(** [delete(w.eventBuffer, path)] *)
Definition delete_entry (path : string) : M unit :=
  modify (fun s => set_eventBuffer (delete path (eventBuffer (self s))) s).

(** The body of the loop, for the key [path] and the value [fe]. *)
Definition sweep_entry (now : time.Time) (path : string) (fe : loc) : M unit :=
  e ← load fe;
  if StaleThreshold <? time.Sub now (lastSeen e) then
    delete_entry path
  else
    (if isDeleted e then logf (MsgFileDeleted path)
     else if isNew e && negb (isModified e) then logf (MsgFileCreatedEmpty path)
     else if isNew e && isModified e then logf (MsgFileCreated path)
     else if isModified e then logf (MsgFileModified path)
     else logf (MsgUnknownPattern path));;
    delete_entry path.

(** [for path, fe := range w.eventBuffer]. Go does not fix the order in
    which the keys are produced: [order] is the order the runtime chooses,
    over the keys present when the loop starts. A key removed before it is
    reached is not produced. *)
Fixpoint range_eventBuffer (body : string -> loc -> M unit) (order : list string)
  : M unit :=
  match order with
  | [] => mret tt
  | k :: rest =>
      buf ← gets (fun s => eventBuffer (self s));
      match buf !! k with
      | Some v => body k v
      | None => mret tt
      end;;
      range_eventBuffer body rest
  end.

Definition processBufferedEvents (now : time.Time) (order : list string) : M unit :=
  range_eventBuffer (sweep_entry now) order.

(** ** [filepath.WalkDir] *)

Section WalkDir.

Variable fn : string -> option DirEntry -> option error -> M (option error).

(** [if err == SkipDir && d.IsDir() { err = nil }; return err] *)
Definition after_skip (d : DirEntry) (err : error) : option error :=
  match err with
  | SkipDir => if d_IsDir d then None else Some err
  | _ => Some err
  end.

Fixpoint walkDir (path : string) (d : DirEntry) {struct d} : M (option error) :=
  err ← fn path (Some d) None;
  match err, d with
  | Some e, _ => mret (after_skip d e)
  | None, File _ => mret None
  | None, Dir _ readErr dirs =>
      err ← (if readErr then fn path (Some d) (Some (OSError "readdir"))
             else mret None);
      match err with
      | Some e => mret (after_skip d e)
      | None =>
          (fix loop (ds : list DirEntry) : M (option error) :=
             match ds with
             | [] => mret None
             | d1 :: rest =>
                 err ← walkDir (filepath.Join path (d_Name d1)) d1;
                 match err with
                 | Some SkipDir => mret None
                 | Some e => mret (Some e)
                 | None => loop rest
                 end
             end) dirs
      end
  end.

Definition WalkDir (env : Env) (root : string) : M (option error) :=
  err ← match Lstat env root with
        | None => fn root None (Some (OSError "lstat"))
        | Some d => walkDir root d
        end;
  match err with
  | Some SkipDir | Some SkipAll => mret None
  | _ => mret err
  end.

End WalkDir.

(** ** [addRecursive] *)

(** The function passed to [filepath.WalkDir]. *)
Definition addRecursive_fn (env : Env) (root : string)
    (path : string) (d : option DirEntry) (err : option error)
  : M (option error) :=
  match err with
  | Some _ => logf (MsgErrorAccessing path);; mret None
  | None =>
      match d with
      | None => panic nil_deref
      | Some d =>
          if d_IsDir d
             && (strings.HasPrefix (d_Name d) "." && negb (String.eqb path root))
          then mret (Some SkipDir)
          else
            err ← fsWatcher_Add env path;
            (if (err : bool) then logf (MsgFailedWatchDir path)
             else logf (MsgAddedDir path));;
            mret None
      end
  end.

Definition addRecursive (env : Env) (root : string) : M (option error) :=
  WalkDir (addRecursive_fn env root) env root.

(** ** [Start] and [Stop] *)

(** [Start] either returns an error, or starts the goroutine [watch] and
    waits at [<-w.done]; it then returns nil when the channel is closed. *)
Inductive StartOutcome :=
  | StartReturned (err : error)
  | StartWaiting.

Definition Start (env : Env) : M StartOutcome :=
  if NewWatcherFails env then
    modify (set_fsWatcher None);;
    logf MsgFailedCreateWatcher;;
    mret (StartReturned (OSError "failed to create file watcher"))
  else
    modify (set_fsWatcher (Some (mkFsWatcher ∅ false)));;
    root ← gets (fun s => path (self s));
    err ← addRecursive env root;
    match err with
    | Some _ =>
        logf MsgFailedAddDirs;;
        mret (StartReturned (OSError "failed to add directories"))
    | None =>
        logf (MsgWatching root);;
        mret StartWaiting
    end.

(** The receive [<-w.done] of a waiting [Start] proceeds, and [Start]
    returns nil, once the channel is closed. *)
Definition Start_unblocked (s : State) : bool :=
  match done (self s) with ChanClosed => true | ChanOpen => false end.

(** [close(w.done)] *)
Definition close_done : M unit := fun s =>
  match done (self s) with
  | ChanOpen => Ok (tt, set_done ChanClosed s, [])
  | ChanClosed => Panic "close of closed channel"
  end.

Definition Stop : M (option error) :=
  fw ← gets (fun s => fsWatcher (self s));
  match fw with
  | Some fw =>
      close_done;;
      modify (set_fsWatcher (Some (Watcher_Close fw)));;
      mret None
  | None => mret None
  end.

(** ** The program at run time *)

(** The goroutine [watch] receives the raw events one after the other and
    calls [bufferEvent] on each. *)
Record Raw := mkRaw {
  raw_env : Env;
  raw_now : time.Time;
  raw_event : fsnotify.Event
}.

Fixpoint ingest (raws : list Raw) : M unit :=
  match raws with
  | [] => mret tt
  | r :: rest =>
      bufferEvent (raw_env r) (raw_now r) (raw_event r);;
      ingest rest
  end.

(** The runtime runs the function of the timer [t] at time [now], if [t] is
    armed and due: the timer has then fired, and [processBufferedEvents]
    runs, here without any other goroutine running in between. *)
Definition timerExpiry (t : loc) (now : time.Time) (order : list string) : M unit :=
  ts ← gets timers;
  match ts !! t with
  | Some tm =>
      match tstate tm with
      | TimerActive =>
          if when tm <=? now then
            modify (set_timers (<[t := mkTimer (when tm) TimerFired]> ts));;
            processBufferedEvents now order
          else mret tt
      | _ => mret tt
      end
  | None => mret tt
  end.

(** The keys of the pending set. *)
Definition pending (s : State) : list string :=
  (map_to_list (eventBuffer (self s))).*1.

(** ** Well-formed states

    What Go guarantees of pointers, and what the watcher maintains of its
    timers: every pointer of the map refers to a cell of the heap, two keys
    never share a cell, the timer of the watcher exists, and no timer other
    than the one of the watcher is armed. *)
Record wf (s : State) : Prop := mkWf {
  wf_valid : forall k p,
    eventBuffer (self s) !! k = Some p -> is_Some (heap s !! p);
  wf_inj : forall k1 k2 p,
    eventBuffer (self s) !! k1 = Some p ->
    eventBuffer (self s) !! k2 = Some p -> k1 = k2;
  wf_timer : forall t,
    debounceTimer (self s) = Some t -> is_Some (timers s !! t);
  wf_single : forall i tm,
    timers s !! i = Some tm -> tstate tm = TimerActive ->
    debounceTimer (self s) = Some i
}.

(** ** The words of the specification *)

(** The outcome of a pending entry at a sweep. *)
Inductive Resolution :=
  | Dispatch (k : EventKind)
  | StaleDrop
  | UnknownPattern.

(** The resolution table of the specification, row by row. *)
Definition spec_table (created modified deleted : bool) : Resolution :=
  match created, modified, deleted with
  | _, _, true => Dispatch Deleted
  | true, false, false => Dispatch CreatedEmpty
  | true, true, false => Dispatch Created
  | false, true, false => Dispatch Modified
  | false, false, false => UnknownPattern
  end.

(** "If [now - lastSeen > StaleThreshold], drop it. Else resolve via this
    ordered table". *)
Definition spec_resolution (now : time.Time) (fe : fileEvent) : Resolution :=
  if decide (now - lastSeen fe > 5 * 1000000000) then StaleDrop
  else spec_table (isNew fe) (isModified fe) (isDeleted fe).

(** What the sink receives for an outcome. *)
Definition spec_dispatches (r : Resolution) : list EventKind :=
  match r with
  | Dispatch k => [k]
  | StaleDrop | UnknownPattern => []
  end.

(** The flags of the specification after one more raw operation:
    create→created, write→modified, remove→deleted, rename→deleted; the time
    of the last event is the current time. *)
Definition spec_ingest (op : fsnotify.Op) (now : time.Time) (fe : fileEvent)
  : fileEvent :=
  mkFileEvent (fe_path fe)
    (isNew fe || fsnotify.Has op fsnotify.Create)
    (isModified fe || fsnotify.Has op fsnotify.Write)
    (isDeleted fe || fsnotify.Has op fsnotify.Remove
                  || fsnotify.Has op fsnotify.Rename)
    now.

(** The entry of a path before an ingestion: the pending one, or a fresh
    one with no flag set. *)
Definition entry_before (s : State) (name : string) (now : time.Time)
  : fileEvent :=
  match eventBuffer (self s) !! name with
  | Some p => default (mkFileEvent name false false false now) (heap s !! p)
  | None => mkFileEvent name false false false now
  end.

(** ** Closed forms used in the statements *)

(** The debug messages of [bufferEvent] for an operation mask. *)
Definition op_log (op : fsnotify.Op) (name : string) : list Msg :=
  (if fsnotify.Has op fsnotify.Create then [MsgCreateEvent name] else [])
  ++ (if fsnotify.Has op fsnotify.Write then [MsgWriteEvent name] else [])
  ++ (if fsnotify.Has op fsnotify.Remove then [MsgRemoveEvent name] else [])
  ++ (if fsnotify.Has op fsnotify.Rename then [MsgRenameEvent name] else []).

(** The timers after [w.debounceTimer.Stop()], when the watcher has a timer. *)
Definition stopped_timers (s : State) : list Timer :=
  match debounceTimer (self s) with
  | Some t =>
      match timers s !! t with
      | Some tm =>
          match tstate tm with
          | TimerActive => <[t := mkTimer (when tm) TimerStopped]> (timers s)
          | _ => timers s
          end
      | None => timers s
      end
  | None => timers s
  end.

(** No flag of [e] is cleared in [e']. *)
Definition flags_le (e e' : fileEvent) : Prop :=
  (isNew e = true -> isNew e' = true)
  /\ (isModified e = true -> isModified e' = true)
  /\ (isDeleted e = true -> isDeleted e' = true).

(** What the body of the loop logs for an entry. *)
Definition sweep_log (now : time.Time) (path : string) (e : fileEvent) : list Msg :=
  if StaleThreshold <? time.Sub now (lastSeen e) then []
  else if isDeleted e then [MsgFileDeleted path]
  else if isNew e && negb (isModified e) then [MsgFileCreatedEmpty path]
  else if isNew e && isModified e then [MsgFileCreated path]
  else if isModified e then [MsgFileModified path]
  else [MsgUnknownPattern path].

(** What the sweep logs for the key [k] of the state [s]. *)
Definition entry_log (now : time.Time) (s : State) (k : string) : list Msg :=
  match eventBuffer (self s) !! k with
  | Some p =>
      match heap s !! p with
      | Some e => sweep_log now k e
      | None => []
      end
  | None => []
  end.

(** The map after [delete] on each key of [order]. *)
Definition delete_all (order : list string) (m : gmap string nat) : gmap string nat :=
  foldl (fun m k => delete k m) m order.


(** ** A vault, for the examples *)

Module Vault.

(** The vault [/vault] holds a hidden directory and a directory of notes. *)
Definition tree : DirEntry :=
  Dir "vault" false
    [ Dir ".obsidian" false [File "app.json"];
      Dir "notes" false [File "a.md"; Dir "archive" false []] ].

(** The directories of the vault, and the hidden directory [/vault/.trash]
    once it is created. *)
Definition is_dir (p : string) : bool :=
  bool_decide (p ∈ ["/vault"; "/vault/.obsidian"; "/vault/notes";
                    "/vault/notes/archive"; "/vault/.trash"]%string).

Definition env : Env :=
  mkEnv is_dir (fun _ => false) false
    (fun p => if String.eqb p "/vault" then Some tree else None).

(** The watcher of the vault after [Start] has registered the tree and
    waits. *)
Definition started : State :=
  match Start env (New "/vault") with
  | Ok (_, s, _) => s
  | Panic _ => New "/vault"
  end.

(** The watcher of the vault after [Start] and one [Stop]: the source is
    set and closed, the channel [done] is closed. *)
Definition stopped : State :=
  match Stop started with
  | Ok (_, s, _) => s
  | Panic _ => started
  end.

(** The paths the notification source watches. *)
Definition watched (s : State) : list string :=
  match fsWatcher (self s) with
  | Some fw => elements (watches fw)
  | None => []
  end.

Definition note : string := "/vault/notes/a.md".

(** The watcher after the note was created, before any timer expires. *)
Definition note_created : State :=
  match bufferEvent env 0 (fsnotify.mkEvent note fsnotify.Create) started with
  | Ok (_, s, _) => s
  | Panic _ => started
  end.

(** An environment in which the root of the watcher does not exist. *)
Definition no_root : Env :=
  mkEnv (fun _ => false) (fun _ => false) false (fun _ => None).

End Vault.

(** ** [Stop] as the specification states it

    Calling [Stop] when the source is non-nil closes the source, signals
    the channel [done], and thereby unblocks [Start]: whenever the
    notification source is set, [Stop] returns, the source and the channel
    are closed, and the receive of [Start] proceeds. *)
Definition Stop_unblocks_whenever_source_is_set : Prop :=
  forall s fw,
    fsWatcher (self s) = Some fw ->
    exists s',
      Stop s = Ok (None, s', [])
      /\ fsWatcher (self s') = Some (Watcher_Close fw)
      /\ done (self s') = ChanClosed
      /\ Start_unblocked s' = true.

(** ** Goroutines

    The watcher runs on two kinds of goroutines. The goroutine [watch]
    receives the raw events and calls [bufferEvent] on each. When a timer
    expires, the runtime starts a goroutine for its function, which runs
    [processBufferedEvents]. Both read and write [w.eventBuffer] and the
    cells it points to. The source takes no lock and passes nothing over a
    channel between the two: each goroutine takes its next step whenever
    the scheduler picks it. *)

(** Where a goroutine running [processBufferedEvents] stands:
    - at the head of the loop, with the keys still to come;
    - in the body, with the key and the pointer that [range] produced;
    - before the [delete] that ends the body. *)
Inductive SweepAt :=
  | AtRange (rest : list string)
  | AtBody (path : string) (fe : nat) (rest : list string)
  | AtDelete (path : string) (rest : list string).

(** One step of [processBufferedEvents]; nothing is returned when the loop
    is over. *)
Definition sweep_step (now : time.Time) (pc : SweepAt) : M (option SweepAt) :=
  match pc with
  | AtRange [] => mret None
  | AtRange (k :: rest) =>
      buf ← gets (fun s => eventBuffer (self s));
      match buf !! k with
      | Some v => mret (Some (AtBody k v rest))
      | None => mret (Some (AtRange rest))
      end
  | AtBody path fe rest =>
      e ← load fe;
      if StaleThreshold <? time.Sub now (lastSeen e) then
        mret (Some (AtDelete path rest))
      else
        (if isDeleted e then logf (MsgFileDeleted path)
         else if isNew e && negb (isModified e) then logf (MsgFileCreatedEmpty path)
         else if isNew e && isModified e then logf (MsgFileCreated path)
         else if isModified e then logf (MsgFileModified path)
         else logf (MsgUnknownPattern path));;
        mret (Some (AtDelete path rest))
  | AtDelete path rest =>
      delete_entry path;;
      mret (Some (AtRange rest))
  end.

(** The steps of one goroutine with no other goroutine in between. *)
Fixpoint sweep_steps (fuel : nat) (now : time.Time) (pc : SweepAt) : M unit :=
  match fuel with
  | O => mret tt
  | S n =>
      r ← sweep_step now pc;
      match r with
      | Some pc' => sweep_steps n now pc'
      | None => mret tt
      end
  end.

(** The program at one instant: the state, the log so far, and the
    goroutines that run [processBufferedEvents], each with the time it read
    on entry and the place where it stands. *)
Record Config := mkConfig {
  c_state : State;
  c_log : list Msg;
  c_sweeps : list (time.Time * SweepAt)
}.

(** The goroutine stands inside a turn of the loop: it has read an entry of
    the map and has not yet removed it. *)
Definition in_turn (pc : SweepAt) : bool :=
  match pc with
  | AtRange _ => false
  | AtBody _ _ _ | AtDelete _ _ => true
  end.

(** What the scheduler can do next. *)
Inductive Action :=
  | Ingest (env : Env) (now : time.Time) (event : fsnotify.Event)
  | Expire (t : nat) (now : time.Time) (order : list string)
  | Sweep (i : nat).

(** The configuration after an action, when the action is possible:
    - [watch] handles a raw event;
    - an armed timer that is due expires, and a goroutine starts at the
      head of the loop, over the keys then pending, in some order;
    - the goroutine [i] takes a step. *)
Definition perform (a : Action) (c : Config) : option Config :=
  match a with
  | Ingest env now event =>
      match bufferEvent env now event (c_state c) with
      | Ok (_, s', l) => Some (mkConfig s' (c_log c ++ l) (c_sweeps c))
      | Panic _ => None
      end
  | Expire t now order =>
      match timers (c_state c) !! t with
      | Some tm =>
          match tstate tm with
          | TimerActive =>
              if (when tm <=? now) && bool_decide (order ≡ₚ pending (c_state c))
              then Some (mkConfig
                           (set_timers (<[t := mkTimer (when tm) TimerFired]>
                                          (timers (c_state c))) (c_state c))
                           (c_log c)
                           (c_sweeps c ++ [(now, AtRange order)]))
              else None
          | _ => None
          end
      | None => None
      end
  | Sweep i =>
      match c_sweeps c !! i with
      | Some (now, pc) =>
          match sweep_step now pc (c_state c) with
          | Ok (Some pc', s', l) =>
              Some (mkConfig s' (c_log c ++ l) (<[i := (now, pc')]> (c_sweeps c)))
          | Ok (None, s', l) =>
              Some (mkConfig s' (c_log c ++ l) (delete i (c_sweeps c)))
          | Panic _ => None
          end
      | None => None
      end
  end.

(** One step of the program. *)
Definition step (c c' : Config) : Prop :=
  exists a, perform a c = Some c'.

(** A schedule, action after action. *)
Fixpoint schedule (acts : list Action) (c : Config) : option Config :=
  match acts with
  | [] => Some c
  | a :: rest =>
      match perform a c with
      | Some c' => schedule rest c'
      | None => None
      end
  end.

(** Mutual exclusion of the ingestion and the sweep, on the executions from
    [init]: while a goroutine stands inside a turn of the loop of
    [processBufferedEvents], [watch] cannot ingest a raw event for a file,
    which reads and writes the map. *)
Definition mutually_excluded (init : Config) : Prop :=
  forall c, rtc step init c ->
  forall now pc, (now, pc) ∈ c_sweeps c -> in_turn pc = true ->
  forall env t event,
    isDirectory env (fsnotify.Name event) = false ->
    isMarkdownFile (fsnotify.Name event) = true ->
    perform (Ingest env t event) c = None.

Module Race.

Definition note : string := Vault.note.

Definition init : Config := mkConfig Vault.started [] [].

(** The note is created; 100 ms later the timer expires and the sweep
    resolves the note as created-empty. Before the sweep removes the
    entry, the write to the note is ingested. The sweep then removes the
    entry. The timer that the write armed expires over an empty map. *)
Definition lost_write : list Action :=
  [ Ingest Vault.env 0 (fsnotify.mkEvent note fsnotify.Create);
    Expire 0 100000000 [note];
    Sweep 0;
    Sweep 0;
    Ingest Vault.env 100000100 (fsnotify.mkEvent note fsnotify.Write);
    Sweep 0;
    Sweep 0;
    Expire 1 200000100 [];
    Sweep 0 ].

(** The same raw events with the sweep and the ingestion one after the
    other: the write first, or the sweep first. *)
Definition write_then_sweep : list Action :=
  [ Ingest Vault.env 0 (fsnotify.mkEvent note fsnotify.Create);
    Ingest Vault.env 100000100 (fsnotify.mkEvent note fsnotify.Write);
    Expire 1 200000100 [note];
    Sweep 0; Sweep 0; Sweep 0; Sweep 0 ].

Definition sweep_then_write : list Action :=
  [ Ingest Vault.env 0 (fsnotify.mkEvent note fsnotify.Create);
    Expire 0 100000000 [note];
    Sweep 0; Sweep 0; Sweep 0; Sweep 0;
    Ingest Vault.env 100000100 (fsnotify.mkEvent note fsnotify.Write);
    Expire 1 200000100 [note];
    Sweep 0; Sweep 0; Sweep 0; Sweep 0 ].

(** The program when the sweep has resolved the note and has not yet
    removed its entry. *)
Definition inside_turn : option Config := schedule (take 4 lost_write) init.

(** What a schedule ends with: the logical events dispatched, the paths
    still pending, and the goroutines of the sweep still running. *)
Definition outcome (acts : list Action)
  : option (list (EventKind * string) * list string
            * list (time.Time * SweepAt)) :=
  match schedule acts init with
  | Some c => Some (dispatched (c_log c), pending (c_state c), c_sweeps c)
  | None => None
  end.

End Race.

(** ** What the walk registers *)

(** The test of [addRecursive] that skips a directory: a directory whose
    name starts with ["."], unless its path is the root of the walk. *)
Definition skipped (root pth : string) (d : DirEntry) : bool :=
  d_IsDir d && (strings.HasPrefix (d_Name d) "." && negb (String.eqb pth root)).

(** The paths on which the walk from the entry [d] at [pth] calls
    [w.fsWatcher.Add], with their entries, in the order of the walk: every
    entry, file or directory, reached without passing a skipped
    directory. *)
Fixpoint targets (root pth : string) (d : DirEntry) {struct d}
  : list (string * DirEntry) :=
  if skipped root pth d then []
  else
    (pth, d) ::
    match d with
    | File _ => []
    | Dir _ _ entries =>
        flat_map (fun d1 => targets root (filepath.Join pth (d_Name d1)) d1) entries
    end.

(** The notification source after [Add] on each path of a list. *)
Definition add_all (env : Env) (fw : FsWatcher) (ps : list string) : FsWatcher :=
  foldl (fun fw p => fst (Watcher_Add env p fw)) fw ps.

(** A closed decidable proposition, by evaluation. *)
Ltac decide_by_computation :=
  apply (bool_decide_unpack _); vm_compute; exact I.

(** ** Bursts of raw events on one path *)

(** The raw events of a burst on the path [p]: at each time, an operation
    mask. *)
Definition burst (env : Env) (p : string) (evs : list (time.Time * fsnotify.Op))
  : list Raw :=
  (fun e => mkRaw env e.1 (fsnotify.mkEvent p e.2)) <$> evs.

(** Some event of the burst carries the bit. *)
Definition seen (bit : fsnotify.Op) (evs : list (time.Time * fsnotify.Op)) : bool :=
  existsb (fun e => fsnotify.Has e.2 bit) evs.

(** The time of the last event of a burst that starts at [t0]. *)
Definition last_time (t0 : time.Time) (evs : list (time.Time * fsnotify.Op))
  : time.Time :=
  match last evs with
  | Some e => e.1
  | None => t0
  end.

(** ** Names without a separator *)

(** Some byte of the string is a path separator. *)
Fixpoint has_separator (s : string) : bool :=
  match s with
  | EmptyString => false
  | String c rest => filepath.IsPathSeparator c || has_separator rest
  end.

(** A directory that holds files only, one of them hidden, given to the
    watcher with a separator at its end; and the watcher of the vault with
    two notes pending. *)
Module Inbox.

Definition root : string := "/inbox/".

Definition tree : DirEntry := Dir "inbox" false [File "todo.md"; File ".draft.md"].

Definition env : Env :=
  mkEnv (fun p => String.eqb p "/inbox" || String.eqb p root) (fun _ => false) false
    (fun p => if String.eqb p "/inbox" || String.eqb p root
              then Some tree else None).

Definition other_note : string := "/vault/notes/b.md".

Definition two_notes : State :=
  match bufferEvent Vault.env 10 (fsnotify.mkEvent other_note fsnotify.Write)
          Vault.note_created with
  | Ok (_, s, _) => s
  | Panic _ => Vault.note_created
  end.

End Inbox.

(** ** The goroutine [watch] *)

(** What one [select] of the loop receives: a value of the channel
    [Events] or of the channel [Errors], or the news that one of them is
    closed. A raw event comes with the file system and the clock that
    [bufferEvent] finds when it handles it. *)
Inductive Received :=
  | RecvEvent (raw : Raw)
  | RecvEventsClosed
  | RecvError (err : string)
  | RecvErrorsClosed.

(** The lines of the log of the goroutine: its own two, and those of
    [bufferEvent]. *)
Inductive WatchLine :=
  | LineWatchStarted (path : string)   (* Infof "File watcher has started watching files in" *)
  | LineError (err : string)           (* Errorf "Error: %v" *)
  | LineOf (m : Msg).

(** The goroutine has returned, or it waits in [select] for the next
    value. *)
Inductive WatchOutcome :=
  | WatchReturned
  | WatchSelecting.

(** The loop [for { select { ... } }]. Each turn evaluates
    [w.fsWatcher.Events] and [w.fsWatcher.Errors]. *)
Fixpoint watch_loop (rs : list Received) (s : State)
  : Res (WatchOutcome * State * list WatchLine) :=
  match fsWatcher (self s) with
  | None => Panic nil_deref
  | Some _ =>
      match rs with
      | [] => Ok (WatchSelecting, s, [])
      | RecvEventsClosed :: _ => Ok (WatchReturned, s, [])
      | RecvErrorsClosed :: _ => Ok (WatchReturned, s, [])
      | RecvEvent raw :: rest =>
          match bufferEvent (raw_env raw) (raw_now raw) (raw_event raw) s with
          | Panic why => Panic why
          | Ok (_, s1, l1) =>
              match watch_loop rest s1 with
              | Panic why => Panic why
              | Ok (o, s2, l2) => Ok (o, s2, (LineOf <$> l1) ++ l2)
              end
          end
      | RecvError err :: rest =>
          match watch_loop rest s with
          | Panic why => Panic why
          | Ok (o, s2, l2) => Ok (o, s2, LineError err :: l2)
          end
      end
  end.

Definition watch (rs : list Received) (s : State)
  : Res (WatchOutcome * State * list WatchLine) :=
  match watch_loop rs s with
  | Panic why => Panic why
  | Ok (o, s', l) => Ok (o, s', LineWatchStarted (path (self s)) :: l)
  end.

(** The raw events received before a channel is found closed. *)
Fixpoint heard (rs : list Received) : list Raw :=
  match rs with
  | RecvEvent raw :: rest => raw :: heard rest
  | RecvError _ :: rest => heard rest
  | _ => []
  end.

(** The errors received before a channel is found closed. *)
Fixpoint reported (rs : list Received) : list string :=
  match rs with
  | RecvEvent _ :: rest => reported rest
  | RecvError err :: rest => err :: reported rest
  | _ => []
  end.

(** Whether a channel is found closed. *)
Fixpoint closes (rs : list Received) : bool :=
  match rs with
  | RecvEvent _ :: rest | RecvError _ :: rest => closes rest
  | RecvEventsClosed :: _ | RecvErrorsClosed :: _ => true
  | [] => false
  end.

(** The lines of [bufferEvent] in a log of the goroutine, and the errors
    it logged. *)
Definition lines_of_bufferEvent (l : list WatchLine) : list Msg :=
  omap (fun x => match x with LineOf m => Some m | _ => None end) l.

Definition lines_of_errors (l : list WatchLine) : list string :=
  omap (fun x => match x with LineError e => Some e | _ => None end) l.

(** ** Package [loaders] *)

Module loaders.

(** [strings.ToLower] on a byte: the letters [A] to [Z] of ASCII are
    mapped, the other bytes of ASCII are kept. Go maps the upper-case
    letters outside ASCII as well, rune by rune; none of them becomes a
    byte of [.md], the only string the result is compared with. *)
Definition lower (c : ascii) : ascii :=
  let n := nat_of_ascii c in
  if ((65 <=? n) && (n <=? 90))%nat then ascii_of_nat (n + 32) else c.

Fixpoint ToLower (s : string) : string :=
  match s with
  | EmptyString => EmptyString
  | String c rest => String (lower c) (ToLower rest)
  end.

(** [models.MarkdownFile] *)
Record MarkdownFile := mkMarkdownFile {
  Path : string;
  Content : string;
  Checksum : string
}.

(** The errors of [LoadFile], by the [fmt.Errorf] that makes them. *)
Inductive LoadError :=
  | UnsupportedFileType (path : string)
  | FileDoesNotExist (path : string)
  | FailedToRead (path : string).

Section Load.

(** The hexadecimal SHA-256 of a content; whether [os.Stat] finds the
    file (its error is not [IsNotExist]); what [os.ReadFile] returns. *)
Variable sha256_hex : string -> string.
Variable Exists : string -> bool.
Variable ReadFile : string -> option string.

Definition calculateSHA256 (content : string) : string := sha256_hex content.

Definition LoadMarkdownFile (path : string) : LoadError + MarkdownFile :=
  if negb (Exists path) then inl (FileDoesNotExist path)
  else
    match ReadFile path with
    | None => inl (FailedToRead path)
    | Some content => inr (mkMarkdownFile path content (calculateSHA256 content))
    end.

Definition LoadFile (path : string) : LoadError + MarkdownFile :=
  if String.eqb (ToLower (filepath.Ext path)) ".md" then LoadMarkdownFile path
  else inl (UnsupportedFileType path).

End Load.

End loaders.

(** * Properties *)

(** ** [isMarkdownFile] on examples *)

Example isMarkdownFile_note : isMarkdownFile "/vault/notes/a.md" = true.
Proof. reflexivity. Qed.

(** The comparison of the extension is case sensitive. *)
Example isMarkdownFile_upper : isMarkdownFile "/vault/notes/a.MD" = false.
Proof. reflexivity. Qed.

Example isMarkdownFile_hidden : isMarkdownFile "/vault/notes/.a.md" = false.
Proof. reflexivity. Qed.

Example isMarkdownFile_backup : isMarkdownFile "/vault/notes/~a.md" = false.
Proof. reflexivity. Qed.

(** The extension is the one of the last element of the path. *)
Example isMarkdownFile_dotdir : isMarkdownFile "/vault/notes.md/a" = false.
Proof. reflexivity. Qed.

(** A markdown file inside a hidden directory is a markdown file. *)
Example isMarkdownFile_in_hidden : isMarkdownFile "/vault/.obsidian/a.md" = true.
Proof. reflexivity. Qed.

Example Base_trailing : filepath.Base "/vault/notes.md/" = "notes.md"%string.
Proof. reflexivity. Qed.


(** ** [filepath.Clean] and [filepath.Join] *)

(** Copying an element does not lengthen what is left of the path. *)
Lemma copy_element_length rest : forall out,
  (length (filepath.copy_element rest out).1 <= length rest)%nat.
Proof.
  induction rest as [|c rest IH]; intros out; cbn [filepath.copy_element].
  - done.
  - destruct (filepath.IsPathSeparator c); [done|].
    specialize (IH (c :: out)). simpl. lia.
Qed.

(** The loop of [Clean] ends before its turns are used up: with at least
    as many turns as bytes left, the result does not depend on their
    number. *)
Lemma clean_loop_fuel fuel : forall fuel' rooted rest out dotdot,
  (length rest <= fuel)%nat -> (length rest <= fuel')%nat ->
  filepath.clean_loop fuel rooted rest out dotdot
  = filepath.clean_loop fuel' rooted rest out dotdot.
Proof.
  induction fuel as [|fuel IH]; intros fuel' rooted rest out dotdot H1 H2.
  - destruct rest; [|simpl in H1; lia]. by destruct fuel'.
  - destruct rest as [|c rest1]; [by destruct fuel'|].
    destruct fuel' as [|fuel']; [simpl in H2; lia|].
    simpl in H1, H2. cbn [filepath.clean_loop].
    assert (Helement : forall out1,
              filepath.IsPathSeparator c = false ->
              (let '(rest', out2) := filepath.copy_element (c :: rest1) out1 in
               filepath.clean_loop fuel rooted rest' out2 dotdot)
              = (let '(rest', out2) := filepath.copy_element (c :: rest1) out1 in
                 filepath.clean_loop fuel' rooted rest' out2 dotdot)).
    { intros out1 Hc. cbn [filepath.copy_element]. rewrite Hc.
      pose proof (copy_element_length rest1 (c :: out1)) as Hlen.
      destruct (filepath.copy_element rest1 (c :: out1)) as [rest' out2].
      simpl in Hlen. apply IH; lia. }
    destruct (filepath.IsPathSeparator c) eqn:Hc; [apply IH; lia|].
    destruct (Ascii.eqb c "." && filepath.ends_element rest1); [apply IH; lia|].
    destruct rest1 as [|c1 rest2]; [by apply Helement|].
    simpl in H1, H2.
    destruct (Ascii.eqb c "." && Ascii.eqb c1 "." && filepath.ends_element rest2);
      [|by apply Helement].
    destruct (_ <? _)%nat; [apply IH; lia|].
    destruct (negb rooted); apply IH; lia.
Qed.

(** [Join] cleans: a separator at the end of the directory, a doubled
    separator and a [.] element do not show in the result, and [..] takes
    the element before it away. The root directory keeps its separator. *)
Example Join_trailing_separator :
  filepath.Join "/inbox/" "todo.md" = "/inbox/todo.md"%string.
Proof. reflexivity. Qed.

Example Join_dot : filepath.Join "." "todo.md" = "todo.md"%string.
Proof. reflexivity. Qed.

Example Join_dot_slash : filepath.Join "./notes" "a.md" = "notes/a.md"%string.
Proof. reflexivity. Qed.

Example Join_root : filepath.Join "/" "vault" = "/vault"%string.
Proof. reflexivity. Qed.

Example Join_clean : filepath.Join "/vault" "notes" = "/vault/notes"%string.
Proof. reflexivity. Qed.

Example Join_dotdot : filepath.Join "a//b/../c" "d" = "a/c/d"%string.
Proof. reflexivity. Qed.

Example Join_empty : filepath.Join "" "x" = "x"%string.
Proof. reflexivity. Qed.

Example Clean_table :
  filepath.Clean "" = "."%string
  /\ filepath.Clean "//" = "/"%string
  /\ filepath.Clean "abc/def/ghi/../jkl" = "abc/def/jkl"%string
  /\ filepath.Clean "abc/../../././../def" = "../../def"%string
  /\ filepath.Clean "/../abc" = "/abc"%string
  /\ filepath.Clean "abc/def/../../.." = ".."%string.
Proof. repeat split. Qed.
(** ** The ingestion of a raw event *)

(** A raw event for a path that is pending: the cell of the path takes the
    flags of the operation, and the timer is restarted. *)
Lemma bufferFileEvent_pending now ev s p fe :
  wf s ->
  eventBuffer (self s) !! fsnotify.Name ev = Some p ->
  heap s !! p = Some fe ->
  bufferFileEvent now ev s =
    Ok (tt,
        mkState (mkWatcher (path (self s)) (fsWatcher (self s)) (done (self s))
                   (eventBuffer (self s)) (Some (length (timers s))))
                (<[p := spec_ingest (fsnotify.EvOp ev) now fe]> (heap s))
                (stopped_timers s ++ [mkTimer (now + debounce) TimerActive]),
        op_log (fsnotify.EvOp ev) (fsnotify.Name ev)).
Proof.
  intros Hwf Hk Hp.
  pose proof (lookup_lt_Some _ _ _ Hp) as Hlt.
  unfold bufferFileEvent, op_log, spec_ingest, stopped_timers.
  destruct s as [[pa fw dn buf dt] hp ts]; simpl in *.
  unfold mbind, M_bind, gets, modify, logf, store, mret, M_ret, Timer_Stop, AfterFunc; simpl.
  rewrite Hk; simpl. rewrite Hp; simpl.
  destruct fe as [fp n m d l]; simpl.
  destruct (fsnotify.Has _ fsnotify.Create), (fsnotify.Has _ fsnotify.Write),
    (fsnotify.Has _ fsnotify.Remove), (fsnotify.Has _ fsnotify.Rename); simpl;
    repeat (rewrite ?list_lookup_insert_eq, ?list_insert_insert_eq
              by (rewrite ?length_insert; lia); simpl);
    rewrite ?orb_true_r, ?orb_false_r;
    (destruct dt as [t|]; simpl;
     [ destruct (ts !! t) as [tm|] eqn:Ht; simpl;
       [ destruct (tstate tm); simpl; rewrite ?length_insert; reflexivity
       | destruct (wf_timer _ Hwf t eq_refl) as [? ?]; simpl in *; congruence ]
     | reflexivity ]).
Qed.

(** A raw event for a path that is not pending: a new cell, a new entry. *)
Lemma bufferFileEvent_fresh now ev s :
  wf s ->
  eventBuffer (self s) !! fsnotify.Name ev = None ->
  bufferFileEvent now ev s =
    Ok (tt,
        mkState (mkWatcher (path (self s)) (fsWatcher (self s)) (done (self s))
                   (<[fsnotify.Name ev := length (heap s)]> (eventBuffer (self s)))
                   (Some (length (timers s))))
                (heap s ++ [spec_ingest (fsnotify.EvOp ev) now
                              (mkFileEvent (fsnotify.Name ev) false false false now)])
                (stopped_timers s ++ [mkTimer (now + debounce) TimerActive]),
        op_log (fsnotify.EvOp ev) (fsnotify.Name ev)).
Proof.
  intros Hwf Hk.
  unfold bufferFileEvent, op_log, spec_ingest, stopped_timers.
  destruct s as [[pa fw dn buf dt] hp ts]; simpl in *.
  unfold mbind, M_bind, gets, modify, logf, store, alloc, mret, M_ret,
    Timer_Stop, AfterFunc; simpl.
  rewrite Hk; simpl. rewrite list_lookup_middle by reflexivity; simpl.
  assert (Hmid : forall x y : fileEvent, <[length hp := x]> (hp ++ [y]) = hp ++ [x]).
  { intros x y. rewrite insert_app_r_alt by lia.
    replace (length hp - length hp)%nat with 0%nat by lia. reflexivity. }
  destruct (fsnotify.Has _ fsnotify.Create), (fsnotify.Has _ fsnotify.Write),
    (fsnotify.Has _ fsnotify.Remove), (fsnotify.Has _ fsnotify.Rename); simpl;
    repeat (rewrite ?Hmid, ?list_lookup_middle by reflexivity; simpl);
    (destruct dt as [t|]; simpl;
     [ destruct (ts !! t) as [tm|] eqn:Ht; simpl;
       [ destruct (tstate tm); simpl; rewrite ?length_insert; reflexivity
       | destruct (wf_timer _ Hwf t eq_refl) as [? ?]; simpl in *; congruence ]
     | reflexivity ]).
Qed.

Lemma stopped_timers_length s : length (stopped_timers s) = length (timers s).
Proof.
  unfold stopped_timers.
  destruct (debounceTimer (self s)) as [t|]; [|done].
  destruct (timers s !! t) as [tm|]; [|done].
  destruct (tstate tm); by rewrite ?length_insert.
Qed.

Lemma stopped_timers_inactive s i tm :
  wf s -> stopped_timers s !! i = Some tm -> tstate tm <> TimerActive.
Proof.
  intros Hwf Hi Hact. unfold stopped_timers in Hi.
  destruct (debounceTimer (self s)) as [t|] eqn:Hdt;
    [destruct (timers s !! t) as [tm0|] eqn:Ht;
      [destruct (tstate tm0) eqn:Hst|]|].
  - destruct (decide (t = i)) as [->|Hne].
    + rewrite list_lookup_insert_eq in Hi by (eapply lookup_lt_Some; eauto).
      inversion Hi; subst. discriminate.
    + rewrite list_lookup_insert_ne in Hi by done.
      pose proof (wf_single _ Hwf _ _ Hi Hact). congruence.
  - pose proof (wf_single _ Hwf _ _ Hi Hact) as E.
    rewrite Hdt in E. simplify_eq; congruence.
  - pose proof (wf_single _ Hwf _ _ Hi Hact) as E.
    rewrite Hdt in E. simplify_eq; congruence.
  - pose proof (wf_single _ Hwf _ _ Hi Hact) as E.
    rewrite Hdt in E. simplify_eq; congruence.
  - pose proof (wf_single _ Hwf _ _ Hi Hact). congruence.
Qed.

(** The timers after a restart: the watcher's timer is the new one, and it
    is the only one armed. *)
Lemma restart_wf_timers s now w' h' :
  wf s ->
  debounceTimer w' = Some (length (timers s)) ->
  let s' := mkState w' h' (stopped_timers s ++ [mkTimer (now + debounce) TimerActive]) in
  (forall t, debounceTimer (self s') = Some t -> is_Some (timers s' !! t))
  /\ (forall i tm, timers s' !! i = Some tm -> tstate tm = TimerActive ->
        debounceTimer (self s') = Some i).
Proof.
  intros Hwf Hdt s'. subst s'; simpl. split.
  - intros t Ht. rewrite Hdt in Ht. inversion Ht; subst.
    rewrite <- stopped_timers_length. rewrite list_lookup_middle by done. eauto.
  - intros i tm Hi Hact. rewrite Hdt. f_equal.
    apply lookup_app_Some in Hi as [Hi|[Hge Hi]].
    + by destruct (stopped_timers_inactive _ _ _ Hwf Hi).
    + rewrite stopped_timers_length in *.
      apply lookup_lt_Some in Hi as Hlt. simpl in Hlt. lia.
Qed.

Lemma bufferFileEvent_wf now ev s s' l :
  wf s -> bufferFileEvent now ev s = Ok (tt, s', l) -> wf s'.
Proof.
  intros Hwf H.
  destruct (eventBuffer (self s) !! fsnotify.Name ev) as [p|] eqn:Hk.
  - destruct (wf_valid _ Hwf _ _ Hk) as [fe Hp].
    rewrite (bufferFileEvent_pending _ _ _ _ _ Hwf Hk Hp) in H.
    inversion H; subst; clear H.
    edestruct (restart_wf_timers s now) as [T1 T2]; [done| |].
    2:{ constructor; [| |exact T1|exact T2]; simpl.
        - intros k q Hq. apply lookup_lt_is_Some. rewrite length_insert.
          apply lookup_lt_is_Some. by eapply wf_valid.
        - intros. by eapply wf_inj. }
    reflexivity.
  - rewrite (bufferFileEvent_fresh _ _ _ Hwf Hk) in H.
    inversion H; subst; clear H.
    edestruct (restart_wf_timers s now) as [T1 T2]; [done| |].
    2:{ constructor; [| |exact T1|exact T2]; simpl.
        - intros k q Hq. apply lookup_lt_is_Some. rewrite length_app; simpl.
          apply lookup_insert_Some in Hq as [[_ <-]|[_ Hq]]; [lia|].
          apply (wf_valid _ Hwf) in Hq. apply lookup_lt_is_Some in Hq. lia.
        - intros k1 k2 q H1 H2.
          apply lookup_insert_Some in H1 as [[<- <-]|[N1 H1]];
          apply lookup_insert_Some in H2 as [[<- E2]|[N2 H2]]; try done.
          + apply (wf_valid _ Hwf) in H2. apply lookup_lt_is_Some in H2. lia.
          + subst q. apply (wf_valid _ Hwf) in H1. apply lookup_lt_is_Some in H1. lia.
          + by eapply wf_inj. }
    reflexivity.
Qed.

(** *** The two filters of [bufferEvent] *)

Lemma bufferEvent_file env now ev :
  isMarkdownFile (fsnotify.Name ev) = true ->
  isDirectory env (fsnotify.Name ev) = false ->
  bufferEvent env now ev = bufferFileEvent now ev.
Proof. intros Hm Hd. unfold bufferEvent. by rewrite Hm, Hd. Qed.

Lemma bufferEvent_dir env now ev :
  isDirectory env (fsnotify.Name ev) = true ->
  bufferEvent env now ev = handleDirectoryEvent env ev.
Proof. intros Hd. unfold bufferEvent. rewrite Hd. by rewrite andb_false_r. Qed.

Lemma bufferEvent_discard env now ev s :
  isMarkdownFile (fsnotify.Name ev) = false ->
  isDirectory env (fsnotify.Name ev) = false ->
  bufferEvent env now ev s = Ok (tt, s, []).
Proof. intros Hm Hd. unfold bufferEvent. by rewrite Hm, Hd. Qed.

Lemma set_fsWatcher_id s fw :
  fsWatcher (self s) = fw -> set_fsWatcher fw s = s.
Proof. destruct s as [[]]; simpl. by intros ->. Qed.

Lemma handleDirectoryEvent_Ok env ev s fw :
  fsWatcher (self s) = Some fw ->
  exists fw' l, handleDirectoryEvent env ev s = Ok (tt, set_fsWatcher (Some fw') s, l).
Proof.
  intros Hfw. unfold handleDirectoryEvent.
  destruct (fsnotify.Has _ _).
  - unfold mbind, M_bind, logf, fsWatcher_Add. rewrite Hfw.
    destruct (Watcher_Add env (fsnotify.Name ev) fw) as [fw' [|]]; simpl; eauto.
  - exists fw, []. by rewrite set_fsWatcher_id.
Qed.

Lemma set_fsWatcher_wf s fw : wf s -> wf (set_fsWatcher fw s).
Proof. intros [? ? ? ?]. by constructor. Qed.

(** Every raw event is handled without a panic once the watcher has its
    notification source, and the state stays well formed. *)
Lemma bufferEvent_Ok env now ev s :
  wf s -> is_Some (fsWatcher (self s)) ->
  exists s' l, bufferEvent env now ev s = Ok (tt, s', l)
    /\ wf s' /\ is_Some (fsWatcher (self s')).
Proof.
  intros Hwf [fw Hfw].
  destruct (isDirectory env (fsnotify.Name ev)) eqn:Hd.
  - rewrite bufferEvent_dir by done.
    destruct (handleDirectoryEvent_Ok env ev s fw Hfw) as (fw' & l & ->).
    eexists _, _. split; [done|]. split; [by apply set_fsWatcher_wf|].
    destruct s as [[]]; simpl; eauto.
  - destruct (isMarkdownFile (fsnotify.Name ev)) eqn:Hm.
    + rewrite bufferEvent_file by done.
      destruct (eventBuffer (self s) !! fsnotify.Name ev) as [p|] eqn:Hk.
      * destruct (wf_valid _ Hwf _ _ Hk) as [fe Hp].
        pose proof (bufferFileEvent_pending now ev s p fe Hwf Hk Hp) as E.
        eexists _, _. split; [exact E|]. split; [by eapply bufferFileEvent_wf|].
        simpl. eauto.
      * pose proof (bufferFileEvent_fresh now ev s Hwf Hk) as E.
        eexists _, _. split; [exact E|]. split; [by eapply bufferFileEvent_wf|].
        simpl. eauto.
    + rewrite bufferEvent_discard by done. eauto.
Qed.

(** *** Flags only grow *)

Lemma flags_le_refl e : flags_le e e.
Proof. by repeat split. Qed.

Lemma flags_le_trans e1 e2 e3 : flags_le e1 e2 -> flags_le e2 e3 -> flags_le e1 e3.
Proof. unfold flags_le. intros (?&?&?) (?&?&?). auto. Qed.

Lemma flags_le_spec_ingest op now e : flags_le e (spec_ingest op now e).
Proof.
  unfold flags_le, spec_ingest; simpl.
  repeat split; intros ->; by rewrite ?orb_true_l.
Qed.

(** One raw event, whatever its path: a pending entry stays pending, at the
    same cell, and none of its flags is cleared. *)
Lemma bufferEvent_entry env now ev s s' l p ptr e :
  wf s ->
  bufferEvent env now ev s = Ok (tt, s', l) ->
  eventBuffer (self s) !! p = Some ptr ->
  heap s !! ptr = Some e ->
  eventBuffer (self s') !! p = Some ptr
  /\ exists e', heap s' !! ptr = Some e' /\ flags_le e e'
       /\ fe_path e' = fe_path e.
Proof.
  intros Hwf H Hk Hp.
  destruct (isDirectory env (fsnotify.Name ev)) eqn:Hd.
  - rewrite bufferEvent_dir in H by done.
    unfold handleDirectoryEvent in H.
    destruct (fsnotify.Has _ _).
    + unfold mbind, M_bind, logf, fsWatcher_Add in H.
      destruct (fsWatcher (self s)) as [fw|]; [|done].
      destruct (Watcher_Add env (fsnotify.Name ev) fw) as [fw' [|]];
        simpl in H; simplify_eq; destruct s as [[]]; simpl in *;
        (split; [done|]; exists e; split; [done|]; split; [apply flags_le_refl|done]).
    + inversion H; subst.
      split; [done|]; exists e; split; [done|]; split; [apply flags_le_refl|done].
  - destruct (isMarkdownFile (fsnotify.Name ev)) eqn:Hm.
    + rewrite bufferEvent_file in H by done.
      destruct (eventBuffer (self s) !! fsnotify.Name ev) as [q|] eqn:Hq.
      * destruct (wf_valid _ Hwf _ _ Hq) as [fe Hfe].
        rewrite (bufferFileEvent_pending _ _ _ _ _ Hwf Hq Hfe) in H.
        inversion H; subst; clear H; simpl. split; [done|].
        destruct (decide (q = ptr)) as [->|Hne].
        -- rewrite Hfe in Hp. inversion Hp; subst.
           eexists. split.
           { apply list_lookup_insert_eq. by eapply lookup_lt_Some. }
           split; [apply flags_le_spec_ingest|done].
        -- exists e. rewrite list_lookup_insert_ne by done.
           split; [done|]. split; [apply flags_le_refl|done].
      * rewrite (bufferFileEvent_fresh _ _ _ Hwf Hq) in H.
        inversion H; subst; clear H; simpl.
        split.
        { rewrite lookup_insert_ne; [done|]. intros E. rewrite E in Hq. congruence. }
        exists e. split; [by apply lookup_app_l_Some|].
        split; [apply flags_le_refl|done].
    + rewrite bufferEvent_discard in H by done. inversion H; subst.
      split; [done|]; exists e; split; [done|]; split; [apply flags_le_refl|done].
Qed.

(** *** The sweep *)

Lemma sweep_entry_Ok now path fe s e :
  heap s !! fe = Some e ->
  sweep_entry now path fe s =
    Ok (tt, set_eventBuffer (delete path (eventBuffer (self s))) s,
        sweep_log now path e).
Proof.
  intros Hp. unfold sweep_entry, sweep_log, mbind, M_bind, load, delete_entry, modify, logf.
  rewrite Hp.
  destruct (StaleThreshold <? _); [done|].
  destruct (isDeleted e); [done|].
  destruct (isNew e), (isModified e); done.
Qed.

(** The saturating difference of [time.Sub] exceeds five seconds exactly
    when the difference does. *)
Lemma stale_iff now ls :
  (StaleThreshold <? time.Sub now ls) = true <-> now - ls > 5 * 1000000000.
Proof.
  unfold StaleThreshold, time.Sub, time.minDuration, time.maxDuration,
    time.Second, time.Millisecond, time.Nanosecond.
  rewrite Z.ltb_lt.
  destruct (now - ls <? - 2 ^ 63) eqn:E1; [apply Z.ltb_lt in E1; lia|].
  apply Z.ltb_ge in E1.
  destruct (2 ^ 63 - 1 <? now - ls) eqn:E2; [apply Z.ltb_lt in E2; lia|].
  apply Z.ltb_ge in E2. lia.
Qed.

Lemma sweep_log_spec now p e :
  dispatched_for p (sweep_log now p e) = spec_dispatches (spec_resolution now e)
  /\ (MsgUnknownPattern p ∈ sweep_log now p e <-> spec_resolution now e = UnknownPattern).
Proof.
  unfold sweep_log, spec_resolution, dispatched_for.
  destruct (StaleThreshold <? _) eqn:Hs.
  - apply stale_iff in Hs. rewrite decide_True by done. simpl.
    split; [done|]. split; [by intros ?%elem_of_nil|done].
  - rewrite decide_False; [|intros Hc%stale_iff; congruence].
    destruct (isDeleted e), (isNew e), (isModified e); simpl;
      rewrite ?String.eqb_refl; (split; [done|]);
      rewrite list_elem_of_singleton; split; intros; done.
Qed.

Lemma sweep_log_other now p k e :
  k <> p ->
  dispatched_for p (sweep_log now k e) = []
  /\ MsgUnknownPattern p ∉ sweep_log now k e.
Proof.
  intros Hne. unfold sweep_log, dispatched_for.
  assert ((k =? p)%string = false) as Hk by (by apply String.eqb_neq).
  destruct (StaleThreshold <? _); [split; [done|by apply not_elem_of_nil]|].
  destruct (isDeleted e), (isNew e), (isModified e); simpl; rewrite ?Hk;
    (split; [done|]); intros Hin;
    repeat (apply elem_of_cons in Hin as [Hin|Hin]; [congruence|]);
    by apply elem_of_nil in Hin.
Qed.

Lemma lookup_delete_all order (m : gmap string nat) i :
  delete_all order m !! i = if decide (i ∈ order) then None else m !! i.
Proof.
  unfold delete_all. revert m. induction order as [|k rest IH]; intros m.
  - case_decide as Hin; [by apply elem_of_nil in Hin|done].
  - cbn [foldl]. rewrite IH.
    destruct (decide (i ∈ rest)) as [Hin|Hnin].
    + case_decide as Hc; [done|]. destruct Hc. by right.
    + destruct (decide (i = k)) as [->|Hne].
      * case_decide as Hc; [|destruct Hc; by left]. apply lookup_delete_eq.
      * case_decide as Hc.
        -- apply elem_of_cons in Hc as [?|?]; done.
        -- by apply lookup_delete_ne.
Qed.

Lemma set_eventBuffer_twice m1 m2 s :
  set_eventBuffer m2 (set_eventBuffer m1 s) = set_eventBuffer m2 s.
Proof. by destruct s as [[]]. Qed.

Lemma set_eventBuffer_id s : set_eventBuffer (eventBuffer (self s)) s = s.
Proof. by destruct s as [[]]. Qed.

(** The loop over the keys in the order [order]: every key is found, its
    entry resolved and removed; the heap and the timers are not touched. *)
Lemma processBufferedEvents_Ok now order : forall s,
  NoDup order ->
  (forall k, k ∈ order ->
     exists p, eventBuffer (self s) !! k = Some p /\ is_Some (heap s !! p)) ->
  processBufferedEvents now order s =
    Ok (tt, set_eventBuffer (delete_all order (eventBuffer (self s))) s,
        concat (entry_log now s <$> order)).
Proof.
  unfold processBufferedEvents.
  induction order as [|k rest IH]; intros s Hnd Hall; cbn [range_eventBuffer].
  - unfold mret, M_ret. cbn. by rewrite set_eventBuffer_id.
  - apply NoDup_cons in Hnd as [Hk Hnd].
    destruct (Hall k) as (p & Hp & [e He]); [by left|].
    unfold mbind, M_bind, gets. rewrite Hp.
    rewrite (sweep_entry_Ok now k p s e He).
    rewrite IH; [|done|].
    + cbn. rewrite set_eventBuffer_twice.
      assert (entry_log now s k = sweep_log now k e) as ->
        by (unfold entry_log; by rewrite Hp, He).
      do 4 f_equal. apply list_fmap_ext. intros i k' Hk'.
      unfold entry_log. destruct s as [[]]; simpl in *.
      rewrite lookup_delete_ne; [done|].
      intros <-. apply Hk. by eapply list_elem_of_lookup_2.
    + intros k' Hk'. destruct (Hall k') as (p' & Hp' & He'); [by right|].
      exists p'. destruct s as [[]]; simpl in *. split; [|done].
      rewrite lookup_delete_ne; [done|]. by intros <-.
Qed.

Lemma elem_of_pending s k :
  k ∈ pending s <-> is_Some (eventBuffer (self s) !! k).
Proof.
  unfold pending. rewrite list_elem_of_fmap. split.
  - intros ([k' p] & -> & Hin). apply elem_of_map_to_list in Hin. eauto.
  - intros [p Hp]. exists (k, p). split; [done|]. by apply elem_of_map_to_list.
Qed.

Lemma NoDup_pending s : NoDup (pending s).
Proof. apply NoDup_fst_map_to_list. Qed.

(** An order over the pending keys visits each key once, and finds for each
    a cell of the heap. *)
Lemma order_pending s order :
  wf s -> order ≡ₚ pending s ->
  NoDup order
  /\ (forall k, k ∈ order ->
        exists p, eventBuffer (self s) !! k = Some p /\ is_Some (heap s !! p))
  /\ (forall k, is_Some (eventBuffer (self s) !! k) -> k ∈ order).
Proof.
  intros Hwf Hperm. split; [|split].
  - rewrite Hperm. apply NoDup_pending.
  - intros k Hk. rewrite Hperm in Hk. apply elem_of_pending in Hk as [p Hp].
    exists p. split; [done|]. by eapply wf_valid.
  - intros k Hk. rewrite Hperm. by apply elem_of_pending.
Qed.

Lemma dispatched_for_app p l1 l2 :
  dispatched_for p (l1 ++ l2) = dispatched_for p l1 ++ dispatched_for p l2.
Proof. apply omap_app. Qed.

Lemma entry_log_other now s p k :
  k <> p ->
  dispatched_for p (entry_log now s k) = []
  /\ MsgUnknownPattern p ∉ entry_log now s k.
Proof.
  intros Hne. unfold entry_log.
  destruct (eventBuffer (self s) !! k) as [q|]; [|split; [done|apply not_elem_of_nil]].
  destruct (heap s !! q) as [e|]; [|split; [done|apply not_elem_of_nil]].
  by apply sweep_log_other.
Qed.

Lemma others_silent now s p l :
  p ∉ l ->
  dispatched_for p (concat (entry_log now s <$> l)) = []
  /\ MsgUnknownPattern p ∉ concat (entry_log now s <$> l).
Proof.
  induction l as [|k rest IH]; intros Hnin.
  - split; [done|apply not_elem_of_nil].
  - rewrite fmap_cons. cbn [concat].
    apply not_elem_of_cons in Hnin as [Hne Hnin].
    destruct (IH Hnin) as [IH1 IH2].
    destruct (entry_log_other now s p k) as [E1 E2]; [done|].
    rewrite dispatched_for_app, E1, IH1. split; [done|].
    rewrite elem_of_app. tauto.
Qed.

(** In the log of a sweep, what concerns a path is what its own entry
    produced. *)
Lemma log_of_key now s p order :
  NoDup order -> p ∈ order ->
  dispatched_for p (concat (entry_log now s <$> order))
    = dispatched_for p (entry_log now s p)
  /\ (MsgUnknownPattern p ∈ concat (entry_log now s <$> order)
      <-> MsgUnknownPattern p ∈ entry_log now s p).
Proof.
  induction order as [|k rest IH]; intros Hnd Hin.
  - by apply elem_of_nil in Hin.
  - apply NoDup_cons in Hnd as [Hk Hnd]. rewrite fmap_cons. cbn [concat].
    rewrite dispatched_for_app, elem_of_app.
    destruct (decide (k = p)) as [->|Hne].
    + destruct (others_silent now s p rest Hk) as [E1 E2].
      rewrite E1, app_nil_r. split; [done|tauto].
    + apply elem_of_cons in Hin as [?|Hin]; [done|].
      destruct (IH Hnd Hin) as [IH1 IH2].
      destruct (entry_log_other now s p k Hne) as [E1 E2].
      rewrite E1, IH1. split; [done|tauto].
Qed.

(** The sweep of a well-formed state. *)
Lemma sweep_pending now order s :
  wf s -> order ≡ₚ pending s ->
  processBufferedEvents now order s =
    Ok (tt, set_eventBuffer ∅ s, concat (entry_log now s <$> order)).
Proof.
  intros Hwf Hperm.
  destruct (order_pending s order Hwf Hperm) as (Hnd & Hall & Hcov).
  rewrite processBufferedEvents_Ok by done. do 3 f_equal.
  f_equal. apply map_empty. intros i. rewrite lookup_delete_all.
  case_decide as Hi; [done|].
  destruct (eventBuffer (self s) !! i) eqn:E; [|done].
  destruct Hi. apply Hcov. eauto.
Qed.

Lemma sweep_resolves now order s p ptr e :
  wf s -> order ≡ₚ pending s ->
  eventBuffer (self s) !! p = Some ptr ->
  heap s !! ptr = Some e ->
  exists log,
    processBufferedEvents now order s = Ok (tt, set_eventBuffer ∅ s, log)
    /\ dispatched_for p log = spec_dispatches (spec_resolution now e)
    /\ (MsgUnknownPattern p ∈ log <-> spec_resolution now e = UnknownPattern).
Proof.
  intros Hwf Hperm Hk Hp.
  destruct (order_pending s order Hwf Hperm) as (Hnd & Hall & Hcov).
  eexists. split; [by apply sweep_pending|].
  destruct (log_of_key now s p order Hnd) as [E1 E2]; [apply Hcov; eauto|].
  rewrite E1, E2. unfold entry_log. rewrite Hk, Hp. apply sweep_log_spec.
Qed.

(** ** Ingestion of a raw event for a markdown file *)

Lemma entry_before_pending s name now p fe :
  eventBuffer (self s) !! name = Some p -> heap s !! p = Some fe ->
  entry_before s name now = fe.
Proof. intros Hk Hp. unfold entry_before. by rewrite Hk, Hp. Qed.

Lemma entry_before_fresh s name now :
  eventBuffer (self s) !! name = None ->
  entry_before s name now = mkFileEvent name false false false now.
Proof. intros Hk. unfold entry_before. by rewrite Hk. Qed.

(** The state after the ingestion of a raw event for a markdown file, in
    one statement for a pending and for a new path. *)
Lemma bufferFileEvent_after now ev s :
  wf s ->
  exists s' p,
    bufferFileEvent now ev s = Ok (tt, s', op_log (fsnotify.EvOp ev) (fsnotify.Name ev))
    /\ wf s'
    /\ eventBuffer (self s') !! fsnotify.Name ev = Some p
    /\ heap s' !! p
       = Some (spec_ingest (fsnotify.EvOp ev) now (entry_before s (fsnotify.Name ev) now))
    /\ debounceTimer (self s') = Some (length (timers s))
    /\ timers s' = stopped_timers s ++ [mkTimer (now + debounce) TimerActive]
    /\ path (self s') = path (self s)
    /\ fsWatcher (self s') = fsWatcher (self s)
    /\ done (self s') = done (self s).
Proof.
  intros Hwf.
  destruct (eventBuffer (self s) !! fsnotify.Name ev) as [p|] eqn:Hk.
  - destruct (wf_valid _ Hwf _ _ Hk) as [fe Hp].
    pose proof (bufferFileEvent_pending now ev s p fe Hwf Hk Hp) as E.
    eexists _, p. split; [exact E|]. split; [by eapply bufferFileEvent_wf|].
    simpl. rewrite (entry_before_pending _ _ _ _ _ Hk Hp).
    split; [done|]. split; [|done].
    apply list_lookup_insert_eq. by eapply lookup_lt_Some.
  - pose proof (bufferFileEvent_fresh now ev s Hwf Hk) as E.
    eexists _, (length (heap s)). split; [exact E|].
    split; [by eapply bufferFileEvent_wf|].
    simpl. rewrite (entry_before_fresh _ _ _ Hk).
    split; [by apply lookup_insert_eq|]. split; [|done].
    by apply list_lookup_middle.
Qed.

(** C2. For a raw event on a markdown file that is not a directory,
    [bufferEvent] returns, and the entry of the path has exactly the flags
    of the operation bits added to the flags it had (create sets [isNew],
    write sets [isModified], remove and rename set [isDeleted]); no flag is
    cleared. Afterwards the timer of the watcher is a new timer, armed and
    due 100 ms after [now]; the timer the watcher had before is no longer
    armed, and no other timer is. *)
Theorem bufferEvent_sets_flags_and_restarts_timer
    (env : Env) (now : time.Time) (ev : fsnotify.Event) (s : State) :
  wf s ->
  isMarkdownFile (fsnotify.Name ev) = true ->
  isDirectory env (fsnotify.Name ev) = false ->
  let name := fsnotify.Name ev in
  let op := fsnotify.EvOp ev in
  let old := entry_before s name now in
  exists s' log p e' t',
    bufferEvent env now ev s = Ok (tt, s', log)
    /\ eventBuffer (self s') !! name = Some p
    /\ heap s' !! p = Some e'
    /\ isNew e' = isNew old || fsnotify.Has op fsnotify.Create
    /\ isModified e' = isModified old || fsnotify.Has op fsnotify.Write
    /\ isDeleted e' = isDeleted old || fsnotify.Has op fsnotify.Remove
                                    || fsnotify.Has op fsnotify.Rename
    /\ flags_le old e'
    /\ debounceTimer (self s') = Some t'
    /\ timers s' !! t' = Some (mkTimer (now + 100 * 1000000) TimerActive)
    /\ (forall i tm, timers s' !! i = Some tm -> tstate tm = TimerActive -> i = t')
    /\ (forall t, debounceTimer (self s) = Some t -> t <> t').
Proof.
  intros Hwf Hm Hd name op old.
  destruct (bufferFileEvent_after now ev s Hwf)
    as (s' & p & E & Hwf' & Hk & Hp & Hdt & Hts & _).
  exists s', (op_log op name), p, (spec_ingest op now old), (length (timers s)).
  rewrite bufferEvent_file by done.
  split; [exact E|]. split; [exact Hk|]. split; [exact Hp|].
  split; [done|]. split; [done|]. split; [done|].
  split; [apply flags_le_spec_ingest|]. split; [exact Hdt|].
  split.
  { rewrite Hts, <- stopped_timers_length. by apply list_lookup_middle. }
  split.
  { intros i tm Hi Hact. pose proof (wf_single _ Hwf' _ _ Hi Hact) as E'.
    rewrite Hdt in E'. by inversion E'. }
  intros t Ht ->. apply (wf_timer _ Hwf) in Ht.
  apply lookup_lt_is_Some in Ht. lia.
Qed.

(** C4. The pending set is a map: it never holds two entries for a path.
    The ingestion of a raw event for a markdown file whose path is pending
    leaves the map as it is, key for key and pointer for pointer, and
    updates the cell of the path in place, [lastSeen] becoming [now]; for a
    path that is not pending it adds one entry, keyed by the path, and
    changes no other. The cells of the other paths are not touched. *)
Theorem bufferEvent_one_entry_per_path
    (env : Env) (now : time.Time) (ev : fsnotify.Event) (s : State) :
  wf s ->
  isMarkdownFile (fsnotify.Name ev) = true ->
  isDirectory env (fsnotify.Name ev) = false ->
  let name := fsnotify.Name ev in
  exists s' log,
    bufferEvent env now ev s = Ok (tt, s', log)
    /\ NoDup (pending s')
    /\ length (filter (fun k => k = name) (pending s')) = 1%nat
    /\ (forall p, eventBuffer (self s) !! name = Some p ->
          eventBuffer (self s') = eventBuffer (self s)
          /\ length (heap s') = length (heap s)
          /\ exists e', heap s' !! p = Some e' /\ lastSeen e' = now)
    /\ (eventBuffer (self s) !! name = None ->
          exists p e',
            eventBuffer (self s') = <[name := p]> (eventBuffer (self s))
            /\ size (eventBuffer (self s')) = S (size (eventBuffer (self s)))
            /\ heap s' !! p = Some e'
            /\ fe_path e' = name /\ lastSeen e' = now)
    /\ (forall k q, k <> name ->
          eventBuffer (self s) !! k = Some q ->
          eventBuffer (self s') !! k = Some q /\ heap s' !! q = heap s !! q).
Proof.
  intros Hwf Hm Hd name.
  rewrite bufferEvent_file by done.
  assert (Hone : forall s' : State, is_Some (eventBuffer (self s') !! name) ->
            length (filter (fun k => k = name) (pending s')) = 1%nat).
  { intros s' Hin. apply elem_of_pending in Hin.
    pose proof (NoDup_pending s') as Hnd. revert Hnd Hin.
    generalize (pending s'). intros l. induction l as [|k l IH]; intros Hnd Hin.
    - by apply elem_of_nil in Hin.
    - apply NoDup_cons in Hnd as [Hk Hnd]. rewrite filter_cons.
      destruct (decide (k = name)) as [->|Hne].
      + simpl. f_equal. apply length_zero_iff_nil.
        apply elem_of_nil_inv. intros x [-> Hx]%list_elem_of_filter. done.
      + apply elem_of_cons in Hin as [?|Hin]; [done|]. by apply IH. }
  destruct (eventBuffer (self s) !! name) as [p|] eqn:Hk.
  - destruct (wf_valid _ Hwf _ _ Hk) as [fe Hp].
    pose proof (bufferFileEvent_pending now ev s p fe Hwf Hk Hp) as E.
    eexists _, _. split; [exact E|]. simpl.
    split; [apply NoDup_pending|].
    split; [apply Hone; simpl; eauto|].
    split.
    { intros p' Hp'. inversion Hp'; subst p'. split; [done|].
      split; [by rewrite length_insert|].
      eexists. split; [apply list_lookup_insert_eq; by eapply lookup_lt_Some|done]. }
    split; [done|].
    intros k q Hne Hq. split; [done|].
    apply list_lookup_insert_ne. intros ->. apply Hne.
    by eapply (wf_inj _ Hwf).
  - pose proof (bufferFileEvent_fresh now ev s Hwf Hk) as E.
    eexists _, _. split; [exact E|]. simpl.
    split; [apply NoDup_pending|].
    split; [apply Hone; simpl; rewrite lookup_insert_eq; eauto|].
    split; [done|].
    split.
    { intros _. eexists (length (heap s)), _. split; [done|].
      split; [by apply map_size_insert_None|].
      split; [by apply list_lookup_middle|done]. }
    intros k q Hne Hq. split; [by rewrite lookup_insert_ne|].
    apply lookup_app_l. apply lookup_lt_is_Some. by eapply wf_valid.
Qed.

(** C5. [isMarkdownFile] holds exactly when the extension is [".md"],
    compared byte for byte, and the base name starts with neither ["."]
    nor ["~"]. A raw event whose path is neither such a file nor a
    directory is dropped: [bufferEvent] returns with the state (pending
    set and timers included) as it was, and logs nothing. *)
Theorem isMarkdownFile_iff_and_discard
    (env : Env) (now : time.Time) (ev : fsnotify.Event) (s : State)
    (filename : string) :
  (isMarkdownFile filename = true <->
     filepath.Ext filename = ".md"%string
     /\ strings.HasPrefix (filepath.Base filename) "." = false
     /\ strings.HasPrefix (filepath.Base filename) "~" = false)
  /\ (isMarkdownFile (fsnotify.Name ev) = false ->
      isDirectory env (fsnotify.Name ev) = false ->
      bufferEvent env now ev s = Ok (tt, s, [])).
Proof.
  split; [|apply bufferEvent_discard].
  unfold isMarkdownFile.
  destruct (String.eqb_spec (filepath.Ext filename) ".md") as [->|Hne]; simpl.
  - destruct (strings.HasPrefix _ "."), (strings.HasPrefix _ "~"); simpl;
      split; try done; intros (_ & ? & ?); done.
  - split; [done|]. intros [? _]. done.
Qed.

(** ** The timer that expires *)

Lemma fire_wf s t tm :
  wf s -> timers s !! t = Some tm ->
  wf (set_timers (<[t := mkTimer (when tm) TimerFired]> (timers s)) s).
Proof.
  intros Hwf Ht. constructor; simpl.
  - apply (wf_valid _ Hwf).
  - apply (wf_inj _ Hwf).
  - intros t' Ht'. apply lookup_lt_is_Some. rewrite length_insert.
    apply lookup_lt_is_Some. by apply (wf_timer _ Hwf).
  - intros i tm' Hi Hact. destruct (decide (t = i)) as [->|Hne].
    + rewrite list_lookup_insert_eq in Hi by (by eapply lookup_lt_Some).
      by simplify_eq.
    + rewrite list_lookup_insert_ne in Hi by done.
      by apply (wf_single _ Hwf _ _ Hi).
Qed.

Lemma pending_set_timers ts s : pending (set_timers ts s) = pending s.
Proof. done. Qed.

Lemma timerExpiry_due t now order s tm :
  timers s !! t = Some tm -> tstate tm = TimerActive -> when tm <= now ->
  timerExpiry t now order s =
    processBufferedEvents now order
      (set_timers (<[t := mkTimer (when tm) TimerFired]> (timers s)) s).
Proof.
  intros Ht Hact Hdue. unfold timerExpiry, mbind, M_bind, gets, modify.
  rewrite Ht, Hact. apply Z.leb_le in Hdue. rewrite Hdue.
  destruct (processBufferedEvents _ _ _) as [[[[] ?] ?]|]; done.
Qed.

(** ** The resolution sweep *)

(** C1. At a sweep over the pending set, in whatever order the keys come,
    [processBufferedEvents] returns, and for every pending entry the
    logical events dispatched for its path are those of the table of the
    specification: none when [now - lastSeen] exceeds five seconds;
    otherwise exactly one, [deleted] when the deleted flag is set,
    [created-empty] for created alone, [created] for created and modified,
    [modified] for modified alone; and for no flag set none is dispatched
    and the path is logged as an unknown pattern. In particular, for a path
    that is not pending, a create and then a write on a markdown file,
    ingested one after the other, dispatch nothing by themselves and leave
    the timer of the watcher armed for 100 ms after the write; when that
    timer expires, within five seconds of the write, exactly one event is
    dispatched for the path, and it is [created]. *)
Theorem sweep_dispatches_by_table (s : State) :
  wf s ->
  (forall (now : time.Time) (order : list string)
          (p : string) (ptr : nat) (e : fileEvent),
     order ≡ₚ pending s ->
     eventBuffer (self s) !! p = Some ptr ->
     heap s !! ptr = Some e ->
     exists s' log,
       processBufferedEvents now order s = Ok (tt, s', log)
       /\ dispatched_for p log = spec_dispatches (spec_resolution now e)
       /\ (MsgUnknownPattern p ∈ log <-> spec_resolution now e = UnknownPattern))
  /\ (forall (q : string) (env1 env2 : Env) (t1 t2 t3 : time.Time),
        eventBuffer (self s) !! q = None ->
        isMarkdownFile q = true ->
        isDirectory env1 q = false -> isDirectory env2 q = false ->
        t2 + 100 * 1000000 <= t3 -> t3 - t2 <= 5 * 1000000000 ->
        exists s2 log2 t,
          ingest [mkRaw env1 t1 (fsnotify.mkEvent q fsnotify.Create);
                  mkRaw env2 t2 (fsnotify.mkEvent q fsnotify.Write)] s
            = Ok (tt, s2, log2)
          /\ dispatched log2 = []
          /\ debounceTimer (self s2) = Some t
          /\ timers s2 !! t = Some (mkTimer (t2 + 100 * 1000000) TimerActive)
          /\ forall order2, order2 ≡ₚ pending s2 ->
               exists s3 log3,
                 timerExpiry t t3 order2 s2 = Ok (tt, s3, log3)
                 /\ dispatched_for q log3 = [Created]).
Proof.
  intros Hwf. split.
  { intros now order p ptr e Hperm Hk Hp.
    destruct (sweep_resolves now order s p ptr e Hwf Hperm Hk Hp)
      as (log & E & H1 & H2).
    eauto. }
  intros q env1 env2 t1 t2 t3 Hq Hm Hd1 Hd2 Hdue Hfresh.
  set (ev1 := fsnotify.mkEvent q fsnotify.Create).
  set (ev2 := fsnotify.mkEvent q fsnotify.Write).
  destruct (bufferFileEvent_after t1 ev1 s Hwf)
    as (s1 & p1 & E1 & Hwf1 & Hk1 & Hp1 & _).
  destruct (bufferFileEvent_after t2 ev2 s1 Hwf1)
    as (s2 & p2 & E2 & Hwf2 & Hk2 & Hp2 & Hdt2 & Hts2 & _).
  simpl in Hk1, Hp1, Hk2, Hp2.
  rewrite (entry_before_fresh _ _ _ Hq) in Hp1.
  rewrite (entry_before_pending _ _ _ _ _ Hk1 Hp1) in Hp2.
  assert (Ht2 : timers s2 !! length (timers s1)
                = Some (mkTimer (t2 + 100 * 1000000) TimerActive)).
  { rewrite Hts2, <- stopped_timers_length. by apply list_lookup_middle. }
  exists s2, (op_log fsnotify.Create q ++ op_log fsnotify.Write q ++ []),
    (length (timers s1)).
  split.
  { unfold ingest, mbind, M_bind. simpl.
    rewrite !bufferEvent_file by done. rewrite E1, E2. done. }
  split; [done|]. split; [done|]. split; [done|].
  intros order2 Hperm2.
  rewrite (timerExpiry_due _ _ _ _ _ Ht2 eq_refl) by (simpl; lia).
  pose proof (fire_wf _ _ _ Hwf2 Ht2) as Hwf3.
  match type of Hp2 with _ = Some ?c => set (cell := c) in * end.
  destruct (sweep_resolves t3 order2 _ q p2 cell Hwf3) as (log3 & E3 & H1 & _);
    [by rewrite pending_set_timers|exact Hk2|exact Hp2|].
  eexists _, log3. split; [exact E3|]. rewrite H1.
  unfold spec_resolution. simpl. rewrite decide_False by lia. done.
Qed.

(** C3. After a sweep over the pending set the pending set is empty,
    whatever the outcome of each entry. Every entry is removed once, in its
    own turn of the loop: it is still there after the turns of the keys
    before it, gone after its own, and each turn removes one entry. A
    second sweep finds nothing: it returns at once, with nothing logged. *)
Theorem sweep_empties_pending_set
    (s : State) (now : time.Time) (order : list string) :
  wf s ->
  order ≡ₚ pending s ->
  exists s' log,
    processBufferedEvents now order s = Ok (tt, s', log)
    /\ eventBuffer (self s') = ∅
    /\ pending s' = []
    /\ (forall pre k post, order = pre ++ k :: post ->
          exists s1 l1 s2 l2,
            processBufferedEvents now pre s = Ok (tt, s1, l1)
            /\ eventBuffer (self s1) !! k = eventBuffer (self s) !! k
            /\ is_Some (eventBuffer (self s1) !! k)
            /\ processBufferedEvents now (pre ++ [k]) s = Ok (tt, s2, l2)
            /\ eventBuffer (self s2) !! k = None
            /\ size (eventBuffer (self s1)) = S (size (eventBuffer (self s2))))
    /\ (forall now2 order2, order2 ≡ₚ pending s' ->
          processBufferedEvents now2 order2 s' = Ok (tt, s', [])).
Proof.
  intros Hwf Hperm.
  destruct (order_pending s order Hwf Hperm) as (Hnd & Hall & Hcov).
  eexists _, _. split; [by apply sweep_pending|].
  split; [done|]. split; [unfold pending; simpl; by rewrite map_to_list_empty|].
  split.
  - intros pre k post ->.
    apply NoDup_app in Hnd as (Hpre & Hdisj & Hpost).
    apply NoDup_cons in Hpost as [Hkpost _].
    assert (Hkpre : k ∉ pre).
    { intros Hin. apply (Hdisj _ Hin). by left. }
    assert (Hall1 : forall k0, k0 ∈ pre ->
              exists p, eventBuffer (self s) !! k0 = Some p /\ is_Some (heap s !! p)).
    { intros k0 Hin. apply Hall. apply elem_of_app. by left. }
    assert (Hall2 : forall k0, k0 ∈ pre ++ [k] ->
              exists p, eventBuffer (self s) !! k0 = Some p /\ is_Some (heap s !! p)).
    { intros k0 Hin. apply Hall. apply elem_of_app.
      apply elem_of_app in Hin as [?|Hin]; [by left|right].
      apply list_elem_of_singleton in Hin as ->. by left. }
    assert (Hnd2 : NoDup (pre ++ [k])).
    { apply NoDup_app. split; [done|]. split; [|apply NoDup_singleton].
      intros x Hx Hx'. apply list_elem_of_singleton in Hx' as ->. done. }
    eexists _, _, _, _.
    split; [by apply processBufferedEvents_Ok|].
    simpl. rewrite lookup_delete_all, decide_False by done.
    split; [done|].
    split. { destruct (Hall k) as (p & -> & _); [|eauto]. apply elem_of_app. right. by left. }
    split; [by apply processBufferedEvents_Ok|].
    simpl. split.
    + rewrite lookup_delete_all, decide_True; [done|].
      apply elem_of_app. right. by left.
    + unfold delete_all. rewrite foldl_app. simpl.
      destruct (Hall k) as (p & Hp & _); [apply elem_of_app; right; by left|].
      fold (delete_all pre (eventBuffer (self s))).
      assert (Hin : is_Some (delete_all pre (eventBuffer (self s)) !! k)).
      { rewrite lookup_delete_all, decide_False by done. eauto. }
      rewrite (map_size_delete_Some _ _ Hin).
      apply map_size_ne_0_lookup_2 in Hin. lia.
  - intros now2 order2 Hperm2.
    unfold pending in Hperm2. simpl in Hperm2.
    rewrite map_to_list_empty in Hperm2. apply Permutation_nil_r in Hperm2 as ->.
    done.
Qed.

(** ** Several raw events in a row *)

Lemma ingest_cons r raws s s1 l1 :
  bufferEvent (raw_env r) (raw_now r) (raw_event r) s = Ok (tt, s1, l1) ->
  ingest (r :: raws) s =
    match ingest raws s1 with
    | Ok (b, s2, l2) => Ok (b, s2, l1 ++ l2)
    | Panic why => Panic why
    end.
Proof. intros E. cbn [ingest]. unfold mbind, M_bind. by rewrite E. Qed.

(** Raw events ingested one after the other, on any paths: the watcher
    handles them all, an entry that is pending stays pending at its cell,
    and none of its flags is cleared. *)
Lemma ingest_entry raws : forall s p ptr e,
  wf s -> is_Some (fsWatcher (self s)) ->
  eventBuffer (self s) !! p = Some ptr ->
  heap s !! ptr = Some e ->
  exists s' l e',
    ingest raws s = Ok (tt, s', l)
    /\ wf s'
    /\ eventBuffer (self s') !! p = Some ptr
    /\ heap s' !! ptr = Some e'
    /\ flags_le e e'.
Proof.
  induction raws as [|r raws IH]; intros s p ptr e Hwf Hfw Hk Hp.
  - exists s, [], e. split; [done|]. split; [done|]. split; [done|].
    split; [done|apply flags_le_refl].
  - destruct (bufferEvent_Ok (raw_env r) (raw_now r) (raw_event r) s Hwf Hfw)
      as (s1 & l1 & E1 & Hwf1 & Hfw1).
    destruct (bufferEvent_entry _ _ _ _ _ _ _ _ _ Hwf E1 Hk Hp)
      as (Hk1 & e1 & Hp1 & Hle1 & _).
    destruct (IH s1 p ptr e1 Hwf1 Hfw1 Hk1 Hp1) as (s' & l & e' & E & Hwf' & Hk' & Hp' & Hle).
    exists s', (l1 ++ l), e'. rewrite (ingest_cons _ _ _ _ _ E1), E.
    split; [done|]. split; [done|]. split; [done|]. split; [done|].
    by eapply flags_le_trans.
Qed.

(** C10. The flags of a pending entry only grow. After a raw event for a
    markdown file, whatever raw events are ingested next (for this path or
    for others), the entry of the path stays pending, at the same cell, and
    every flag that was set is still set. So when the first event carries
    remove or rename, the deleted flag is set and stays set, and a sweep
    that finds the entry not stale dispatches for the path exactly one
    event, [deleted], whatever creates and writes came in between. *)
Theorem flags_monotone_deleted_wins
    (r0 : Raw) (raws : list Raw) (s : State) :
  wf s ->
  is_Some (fsWatcher (self s)) ->
  isMarkdownFile (fsnotify.Name (raw_event r0)) = true ->
  isDirectory (raw_env r0) (fsnotify.Name (raw_event r0)) = false ->
  let p := fsnotify.Name (raw_event r0) in
  let op := fsnotify.EvOp (raw_event r0) in
  exists s1 l1 ptr e1 s' l e',
    bufferEvent (raw_env r0) (raw_now r0) (raw_event r0) s = Ok (tt, s1, l1)
    /\ eventBuffer (self s1) !! p = Some ptr
    /\ heap s1 !! ptr = Some e1
    /\ ingest raws s1 = Ok (tt, s', l)
    /\ eventBuffer (self s') !! p = Some ptr
    /\ heap s' !! ptr = Some e'
    /\ flags_le e1 e'
    /\ (fsnotify.Has op fsnotify.Remove = true
        \/ fsnotify.Has op fsnotify.Rename = true ->
        isDeleted e1 = true /\ isDeleted e' = true
        /\ forall now order,
             order ≡ₚ pending s' ->
             now - lastSeen e' <= 5 * 1000000000 ->
             exists s'' log,
               processBufferedEvents now order s' = Ok (tt, s'', log)
               /\ dispatched_for p log = [Deleted]).
Proof.
  intros Hwf Hfw Hm Hd p op.
  destruct (bufferFileEvent_after (raw_now r0) (raw_event r0) s Hwf)
    as (s1 & ptr & E1 & Hwf1 & Hk1 & Hp1 & _ & _ & _ & Hfw1 & _).
  rewrite <- Hfw1 in Hfw.
  destruct (ingest_entry raws s1 p ptr _ Hwf1 Hfw Hk1 Hp1)
    as (s' & l & e' & E & Hwf' & Hk' & Hp' & Hle).
  eexists s1, _, ptr, _, s', l, e'.
  rewrite bufferEvent_file by done.
  split; [exact E1|]. split; [exact Hk1|]. split; [exact Hp1|].
  split; [exact E|]. split; [exact Hk'|]. split; [exact Hp'|].
  split; [exact Hle|].
  intros Hop.
  assert (Hdel1 : isDeleted (spec_ingest op (raw_now r0)
                    (entry_before s p (raw_now r0))) = true).
  { simpl. fold op. destruct Hop as [-> | ->]; by rewrite ?orb_true_r. }
  assert (Hdel : isDeleted e' = true) by (by apply Hle).
  split; [exact Hdel1|]. split; [exact Hdel|].
  intros now order Hperm Hfresh.
  destruct (sweep_resolves now order s' p ptr e' Hwf' Hperm Hk' Hp')
    as (log & Es & H1 & _).
  eexists _, log. split; [exact Es|]. rewrite H1.
  unfold spec_resolution. rewrite decide_False by lia.
  rewrite Hdel. by destruct (isNew e'), (isModified e').
Qed.

(** ** [Stop] *)

(** C8, counterexample. The watcher of the vault after [Start] and one
    [Stop] has its source set (and closed) and its channel [done] closed. A
    [Stop] on it closes the closed channel: it panics and does not return.
    So the source being set is not enough for [Stop] to return. *)
Lemma Stop_on_stopped_watcher_panics :
  Stop Vault.started = Ok (None, Vault.stopped, [])
  /\ fsWatcher (self Vault.stopped) = Some (mkFsWatcher ∅ true)
  /\ Stop Vault.stopped = Panic "close of closed channel"
  /\ ~ Stop_unblocks_whenever_source_is_set.
Proof.
  assert (H1 : Stop Vault.started = Ok (None, Vault.stopped, []))
    by (vm_compute; reflexivity).
  assert (H2 : fsWatcher (self Vault.stopped) = Some (mkFsWatcher ∅ true))
    by (vm_compute; reflexivity).
  assert (H3 : Stop Vault.stopped = Panic "close of closed channel")
    by (vm_compute; reflexivity).
  split; [exact H1|]. split; [exact H2|]. split; [exact H3|].
  intros H. destruct (H Vault.stopped _ H2) as (s' & E & _).
  rewrite H3 in E. discriminate.
Qed.

(** C8, amended. [Stop] on a watcher whose notification source is nil, as
    it is before [Start], returns nil and leaves the state as it was. On a
    watcher whose source is set and whose channel [done] is open (no [Stop]
    since [Start]; [Start] waits on the channel), [Stop] returns nil, the
    source is closed, the channel is closed, and the receive of [Start]
    proceeds; the pending set, the heap and the timers are not touched. On
    a watcher whose source is set and whose channel [done] is closed (a
    [Stop] came before), [Stop] panics. *)
Theorem Stop_noop_before_Start_else_unblocks (s : State) :
  (fsWatcher (self s) = None -> Stop s = Ok (None, s, []))
  /\ (forall root, Stop (New root) = Ok (None, New root, []))
  /\ (forall fw,
        fsWatcher (self s) = Some fw ->
        done (self s) = ChanOpen ->
        Start_unblocked s = false
        /\ exists s',
             Stop s = Ok (None, s', [])
             /\ fsWatcher (self s') = Some (Watcher_Close fw)
             /\ fsClosed (Watcher_Close fw) = true
             /\ done (self s') = ChanClosed
             /\ Start_unblocked s' = true
             /\ eventBuffer (self s') = eventBuffer (self s)
             /\ debounceTimer (self s') = debounceTimer (self s)
             /\ path (self s') = path (self s)
             /\ heap s' = heap s /\ timers s' = timers s)
  /\ (forall fw,
        fsWatcher (self s) = Some fw ->
        done (self s) = ChanClosed ->
        Stop s = Panic "close of closed channel").
Proof.
  split; [|split; [|split]].
  - intros Hfw. unfold Stop, mbind, M_bind, gets. by rewrite Hfw.
  - done.
  - intros fw Hfw Hdone. split.
    + unfold Start_unblocked. by rewrite Hdone.
    + unfold Stop, mbind, M_bind, gets, close_done, modify.
      rewrite Hfw, Hdone. simpl. eexists. split; [done|].
      destruct s as [[]]; simpl. done.
  - intros fw Hfw Hdone. unfold Stop, mbind, M_bind, gets, close_done.
    by rewrite Hfw, Hdone.
Qed.

(** A second [Stop] closes a closed channel: it panics. *)
Lemma Stop_twice_panics s fw :
  fsWatcher (self s) = Some fw -> done (self s) = ChanClosed ->
  Stop s = Panic "close of closed channel".
Proof.
  intros Hfw Hdone. unfold Stop, mbind, M_bind, gets, close_done.
  by rewrite Hfw, Hdone.
Qed.

(** ** The recursive registration *)

(** Induction on file trees. *)
Section DirEntry_induction.

Variable P : DirEntry -> Prop.
Hypothesis P_File : forall name, P (File name).
Hypothesis P_Dir : forall name readErr entries,
  Forall P entries -> P (Dir name readErr entries).

Lemma DirEntry_tree_ind (d : DirEntry) : P d.
Proof.
  revert d. fix IH 1. intros [name|name readErr entries].
  - apply P_File.
  - apply P_Dir. induction entries as [|d1 rest IHrest].
    + constructor.
    + constructor; [apply IH|exact IHrest].
Qed.

End DirEntry_induction.

Lemma set_fsWatcher_twice f1 f2 s :
  set_fsWatcher f2 (set_fsWatcher f1 s) = set_fsWatcher f2 s.
Proof. by destruct s as [[]]. Qed.

(** The function of the walk logs an error that it is given, and returns
    nil. *)
Lemma addRecursive_fn_failed env root pth d e s fw :
  fsWatcher (self s) = Some fw ->
  addRecursive_fn env root pth d (Some e) s
    = Ok (None, set_fsWatcher (Some fw) s, [MsgErrorAccessing pth]).
Proof. intros Hfw. rewrite set_fsWatcher_id by done. done. Qed.


Lemma addRecursive_fn_visit_eq env root pth d s fw :
  fsWatcher (self s) = Some fw ->
  exists l,
    addRecursive_fn env root pth (Some d) None s
      = if skipped root pth d
        then Ok (Some SkipDir, s, [])
        else Ok (None, set_fsWatcher (Some (fst (Watcher_Add env pth fw))) s, l).
Proof.
  intros Hfw. unfold addRecursive_fn, skipped.
  destruct (d_IsDir d && _); [by exists []|].
  unfold mbind, M_bind, fsWatcher_Add, logf. rewrite Hfw.
  destruct (Watcher_Add env pth fw) as [fw' [|]]; simpl; eauto.
Qed.

Lemma add_all_app env fw ps qs :
  add_all env fw (ps ++ qs) = add_all env (add_all env fw ps) qs.
Proof. apply foldl_app. Qed.

(** The walk under an entry calls [Add] on the targets of the entry, in
    order, and on nothing else. *)
Lemma walkDir_targets env root d : forall pth s fw,
  fsWatcher (self s) = Some fw ->
  exists l,
    walkDir (addRecursive_fn env root) pth d s
      = Ok (None,
            set_fsWatcher (Some (add_all env fw (targets root pth d).*1)) s, l).
Proof.
  induction d as [name|name readErr entries IH] using DirEntry_tree_ind;
    intros pth s fw Hfw.
  - destruct (addRecursive_fn_visit_eq env root pth (File name) s fw Hfw) as [l E].
    cbn [walkDir targets]. unfold mbind, M_bind. rewrite E.
    assert (skipped root pth (File name) = false) as -> by done.
    simpl. eauto.
  - destruct (addRecursive_fn_visit_eq env root pth (Dir name readErr entries) s fw Hfw)
      as [l1 E].
    cbn [walkDir targets]. unfold mbind at 1, M_bind at 1. rewrite E.
    destruct (skipped root pth (Dir name readErr entries)).
    { simpl. rewrite set_fsWatcher_id by done. eauto. }
    set (fw1 := fst (Watcher_Add env pth fw)).
    set (s1 := set_fsWatcher (Some fw1) s).
    assert (Hfw1 : fsWatcher (self s1) = Some fw1) by (by destruct s as [[]]).
    assert (Hread : exists l2,
              (if readErr
               then addRecursive_fn env root pth (Some (Dir name readErr entries))
                      (Some (OSError "readdir"))
               else mret None) s1 = Ok (None, s1, l2)).
    { destruct readErr.
      - rewrite (addRecursive_fn_failed _ _ _ _ _ _ _ Hfw1).
        rewrite set_fsWatcher_id by done. eauto.
      - by exists []. }
    destruct Hread as [l2 Hread].
    unfold mbind at 1, M_bind at 1. rewrite Hread.
    assert (Hloop : forall ds, Forall
              (fun d => forall pth s fw, fsWatcher (self s) = Some fw ->
                 exists l, walkDir (addRecursive_fn env root) pth d s
                   = Ok (None, set_fsWatcher
                                 (Some (add_all env fw (targets root pth d).*1)) s, l)) ds ->
              forall s2 fw2, fsWatcher (self s2) = Some fw2 ->
              exists l,
                (fix loop (ds : list DirEntry) : M (option error) :=
                   match ds with
                   | [] => mret None
                   | d1 :: rest =>
                       err ← walkDir (addRecursive_fn env root)
                               (filepath.Join pth (d_Name d1)) d1;
                       match err with
                       | Some SkipDir => mret None
                       | Some e => mret (Some e)
                       | None => loop rest
                       end
                   end) ds s2
                = Ok (None,
                      set_fsWatcher
                        (Some (add_all env fw2
                           (flat_map (fun d1 => targets root
                                        (filepath.Join pth (d_Name d1)) d1) ds).*1)) s2,
                      l)).
    { clear. induction ds as [|d1 rest IHds]; intros Hall s2 fw2 Hfw2.
      - exists []. simpl. rewrite set_fsWatcher_id by done. done.
      - apply Forall_cons in Hall as [Hd1 Hrest].
        destruct (Hd1 (filepath.Join pth (d_Name d1)) s2 fw2 Hfw2) as (l3 & E3).
        unfold mbind, M_bind. rewrite E3.
        match type of E3 with
          _ = Ok (_, set_fsWatcher (Some ?f) _, _) => set (fw3 := f) in *
        end.
        assert (Hfw3 : fsWatcher (self (set_fsWatcher (Some fw3) s2)) = Some fw3)
          by (by destruct s2 as [[]]).
        destruct (IHds Hrest _ fw3 Hfw3) as (l4 & E4).
        unfold mbind, M_bind in E4. rewrite E4.
        rewrite set_fsWatcher_twice. cbn [flat_map].
        rewrite fmap_app, add_all_app. eauto. }
    destruct (Hloop entries IH s1 fw1 Hfw1) as (l & E').
    rewrite E'. subst s1. rewrite set_fsWatcher_twice. simpl. eauto.
Qed.

(** No target of the walk is a skipped entry: a directory among the targets
    whose name starts with ["."] is the root. *)
Lemma targets_not_skipped root d : forall pth p e,
  (p, e) ∈ targets root pth d -> skipped root p e = false.
Proof.
  induction d as [name|name readErr entries IH] using DirEntry_tree_ind;
    intros pth p e Hin; cbn [targets] in Hin.
  - destruct (skipped root pth (File name)) eqn:Hs; [by apply elem_of_nil in Hin|].
    apply list_elem_of_singleton in Hin. by simplify_eq.
  - destruct (skipped root pth (Dir name readErr entries)) eqn:Hs;
      [by apply elem_of_nil in Hin|].
    apply elem_of_cons in Hin as [Hin|Hin]; [by simplify_eq|].
    apply list_elem_of_In, in_flat_map in Hin as (d1 & Hd1 & Hin).
    rewrite Forall_forall in IH.
    eapply IH; [apply list_elem_of_In; exact Hd1|].
    apply list_elem_of_In. exact Hin.
Qed.

Lemma Watcher_Add_closed env p fw :
  fsClosed fw = false -> fsClosed (fst (Watcher_Add env p fw)) = false.
Proof.
  intros Hc. unfold Watcher_Add. rewrite Hc. by destruct (AddFails env p).
Qed.

Lemma add_all_watches env ps : forall fw,
  fsClosed fw = false ->
  forall p, p ∈ watches (add_all env fw ps)
            <-> p ∈ watches fw \/ (p ∈ ps /\ AddFails env p = false).
Proof.
  induction ps as [|q ps IH]; intros fw Hc p; cbn [add_all foldl].
  - rewrite elem_of_nil. tauto.
  - fold (add_all env (fst (Watcher_Add env q fw)) ps).
    rewrite IH by (by apply Watcher_Add_closed).
    rewrite elem_of_cons. unfold Watcher_Add. rewrite Hc.
    destruct (AddFails env q) eqn:Hq; simpl.
    + split; [tauto|]. intros [?|[[->|?] ?]]; [tauto|congruence|tauto].
    + rewrite elem_of_union, elem_of_singleton.
      split; [intros [[->|?]|[? ?]]; tauto|].
      intros [?|[[->|?] ?]]; tauto.
Qed.

(** The walk under an entry never returns an error. *)
Lemma walkDir_nil env root d pth s fw :
  fsWatcher (self s) = Some fw ->
  exists fw' l,
    walkDir (addRecursive_fn env root) pth d s
      = Ok (None, set_fsWatcher (Some fw') s, l).
Proof.
  intros Hfw. destruct (walkDir_targets env root d pth s fw Hfw) as [l E].
  eauto.
Qed.

(** [addRecursive] never returns an error, whatever the file tree, and also
    when [os.Lstat] fails on the root. *)
Lemma addRecursive_nil env root s fw :
  fsWatcher (self s) = Some fw ->
  exists fw' l,
    addRecursive env root s = Ok (None, set_fsWatcher (Some fw') s, l).
Proof.
  intros Hfw. unfold addRecursive, WalkDir.
  destruct (Lstat env root) as [d|].
  - destruct (walkDir_nil env root d root s fw Hfw) as (fw' & l & E).
    unfold mbind, M_bind. rewrite E. simpl. rewrite app_nil_r. eauto.
  - unfold mbind, M_bind. rewrite (addRecursive_fn_failed _ _ _ _ _ _ _ Hfw).
    simpl. eauto.
Qed.

(** [Start] returns an error exactly when the notification source cannot
    be created. *)
Lemma Start_error_iff env s :
  (exists e s' l, Start env s = Ok (StartReturned e, s', l))
  <-> NewWatcherFails env = true.
Proof.
  unfold Start. destruct (NewWatcherFails env) eqn:Hnew.
  - split; [done|]. intros _. unfold mbind, M_bind, modify, logf. simpl. eauto.
  - split; [|done]. intros (e & s' & l & E).
    unfold mbind, M_bind, modify, gets in E. simpl in E.
    edestruct (addRecursive_nil env (path (self s))
                 (set_fsWatcher (Some (mkFsWatcher ∅ false)) s)) as (fw' & l' & E').
    { by destruct s as [[]]. }
    replace (path (self (set_fsWatcher (Some (mkFsWatcher ∅ false)) s)))
      with (path (self s)) in E by (by destruct s as [[]]).
    rewrite E' in E. simpl in E. discriminate.
Qed.

(** The initial walk of [Start], when the root can be read: the paths
    watched afterwards are the targets of the walk that the operating
    system accepts. Among them the only directory whose name starts with
    ["."] is the root. *)
Lemma Start_registers_targets env root d :
  NewWatcherFails env = false ->
  Lstat env root = Some d ->
  exists s' l fw',
    Start env (New root) = Ok (StartWaiting, s', l)
    /\ fsWatcher (self s') = Some fw'
    /\ (forall p, p ∈ watches fw'
          <-> p ∈ (targets root root d).*1 /\ AddFails env p = false)
    /\ (forall p e, (p, e) ∈ targets root root d ->
          d_IsDir e = true -> strings.HasPrefix (d_Name e) "." = true ->
          p = root).
Proof.
  intros Hnew Hroot. unfold Start. rewrite Hnew.
  unfold mbind, M_bind, modify, gets. simpl.
  unfold addRecursive, WalkDir. rewrite Hroot.
  edestruct (walkDir_targets env root d root
               (set_fsWatcher (Some (mkFsWatcher ∅ false)) (New root)))
    as (l & E); [done|].
  unfold mbind, M_bind. simpl in E. rewrite E. simpl.
  eexists _, _, _. split; [done|]. split; [done|]. split.
  - intros p. rewrite add_all_watches by done. simpl.
    split; [intros [H|H]; [by apply elem_of_empty in H|done]|by right].
  - intros p e Hin Hdir Hhid.
    apply targets_not_skipped in Hin. unfold skipped in Hin.
    rewrite Hdir, Hhid in Hin. simpl in Hin.
    apply negb_false_iff in Hin. by apply String.eqb_eq in Hin.
Qed.

(** A directory that is created is registered, whatever its name. *)
Lemma handleDirectoryEvent_registers env now name s fw :
  isDirectory env name = true ->
  fsWatcher (self s) = Some fw ->
  fsClosed fw = false ->
  AddFails env name = false ->
  bufferEvent env now (fsnotify.mkEvent name fsnotify.Create) s
    = Ok (tt, set_fsWatcher (Some (mkFsWatcher ({[name]} ∪ watches fw) false)) s,
          [MsgNewDirectory name]).
Proof.
  intros Hd Hfw Hopen Hadd. rewrite bufferEvent_dir by done.
  unfold handleDirectoryEvent. simpl.
  unfold mbind, M_bind, logf, fsWatcher_Add, Watcher_Add.
  by rewrite Hfw, Hopen, Hadd.
Qed.

(** The initial walk of the vault skips the hidden directory and what is
    below it; it registers the root, the other directories, and the files. *)
Example Start_vault_skips_hidden :
  exists s log,
    Start Vault.env (New "/vault") = Ok (StartWaiting, s, log)
    /\ s = Vault.started
    /\ ("/vault" ∈ Vault.watched s /\ "/vault/notes" ∈ Vault.watched s
        /\ "/vault/notes/archive" ∈ Vault.watched s
        /\ "/vault/notes/a.md" ∈ Vault.watched s)
    /\ ("/vault/.obsidian" ∉ Vault.watched s)
    /\ ("/vault/.obsidian/app.json" ∉ Vault.watched s).
Proof.
  eexists _, _. split; [vm_compute; reflexivity|].
  split; [vm_compute; reflexivity|].
  split; [repeat split; decide_by_computation|].
  split; decide_by_computation.
Qed.

(** C6, at the input on which the source departs from it. The hidden
    directory [/vault/.trash] is created under the watched root; the raw
    event of its creation reaches [bufferEvent], which hands it to
    [handleDirectoryEvent], and the directory is registered: its base name
    starts with ["."], it is not the root, and after the call the
    notification source watches it. The recursive walk of [Start] skips
    such a directory; [handleDirectoryEvent] has no such test. *)
Theorem hidden_directory_created_is_registered :
  strings.HasPrefix (filepath.Base "/vault/.trash") "." = true
  /\ path (self Vault.started) <> "/vault/.trash"%string
  /\ isDirectory Vault.env "/vault/.trash" = true
  /\ ("/vault/.trash" ∉ Vault.watched Vault.started)
  /\ exists s',
       bufferEvent Vault.env 0 (fsnotify.mkEvent "/vault/.trash" fsnotify.Create)
         Vault.started = Ok (tt, s', [MsgNewDirectory "/vault/.trash"])
       /\ "/vault/.trash" ∈ Vault.watched s'.
Proof.
  split; [reflexivity|]. split; [by vm_compute|]. split; [reflexivity|].
  split; [decide_by_computation|].
  eexists. split; [vm_compute; reflexivity|].
  decide_by_computation.
Qed.

(** C7, at the input on which the source departs from it. The root of the
    watcher does not exist: [os.Lstat] fails on it. The notification source
    is created; the function of the walk logs the error and returns nil,
    [addRecursive] returns nil, and [Start] does not return an error: it
    logs that it watches the root, and waits. *)
Theorem Start_with_missing_root_returns_no_error :
  Lstat Vault.no_root "/no/such/vault" = None
  /\ NewWatcherFails Vault.no_root = false
  /\ Start Vault.no_root (New "/no/such/vault")
     = Ok (StartWaiting,
           set_fsWatcher (Some (mkFsWatcher ∅ false)) (New "/no/such/vault"),
           [MsgErrorAccessing "/no/such/vault"; MsgWatching "/no/such/vault"]).
Proof. split; [reflexivity|]. split; reflexivity. Qed.

(** A registration that fails during the walk is logged, and the walk goes
    on: [Start] then waits, as it does when every registration succeeds. *)
Lemma Start_waits_unless_source_fails env root :
  NewWatcherFails env = false ->
  exists s' l, Start env (New root) = Ok (StartWaiting, s', l).
Proof.
  intros Hnew. unfold Start. rewrite Hnew.
  unfold mbind, M_bind, modify, gets. simpl.
  edestruct (addRecursive_nil env root
               (set_fsWatcher (Some (mkFsWatcher ∅ false)) (New root)))
    as (fw' & l' & E'); [done|].
  simpl in E'. rewrite E'. simpl. eauto.
Qed.

(** ** The sweep and the ingestion on their goroutines *)

Lemma sweep_steps_S fuel now pc s :
  sweep_steps (S fuel) now pc s =
    match sweep_step now pc s with
    | Ok (Some pc', s1, l1) =>
        match sweep_steps fuel now pc' s1 with
        | Ok (b, s2, l2) => Ok (b, s2, l1 ++ l2)
        | Panic why => Panic why
        end
    | Ok (None, s1, l1) => Ok (tt, s1, l1 ++ [])
    | Panic why => Panic why
    end.
Proof.
  cbn [sweep_steps]. unfold mbind, M_bind.
  destruct (sweep_step now pc s) as [[[[pc'|] s1] l1]|]; done.
Qed.

Lemma sweep_step_AtRange now k rest s :
  sweep_step now (AtRange (k :: rest)) s =
    Ok (Some (match eventBuffer (self s) !! k with
              | Some v => AtBody k v rest
              | None => AtRange rest
              end), s, []).
Proof.
  cbn [sweep_step]. unfold mbind, M_bind, gets.
  by destruct (eventBuffer (self s) !! k).
Qed.

Lemma sweep_step_AtBody now pth fe rest s :
  sweep_step now (AtBody pth fe rest) s =
    match heap s !! fe with
    | Some e => Ok (Some (AtDelete pth rest), s, sweep_log now pth e)
    | None => Panic nil_deref
    end.
Proof.
  cbn [sweep_step]. unfold mbind, M_bind, load, logf, sweep_log.
  destruct (heap s !! fe) as [e|]; [|done].
  destruct (StaleThreshold <? _); [done|].
  destruct (isDeleted e); [done|].
  destruct (isNew e), (isModified e); done.
Qed.

Lemma sweep_step_AtDelete now pth rest s :
  sweep_step now (AtDelete pth rest) s =
    Ok (Some (AtRange rest),
        set_eventBuffer (delete pth (eventBuffer (self s))) s, []).
Proof. done. Qed.

Lemma sweep_entry_eq now pth fe s :
  sweep_entry now pth fe s =
    match heap s !! fe with
    | Some e => Ok (tt, set_eventBuffer (delete pth (eventBuffer (self s))) s,
                    sweep_log now pth e)
    | None => Panic nil_deref
    end.
Proof.
  destruct (heap s !! fe) as [e|] eqn:He.
  - by apply sweep_entry_Ok.
  - unfold sweep_entry, mbind, M_bind, load. by rewrite He.
Qed.

Lemma range_eventBuffer_cons body k rest s :
  range_eventBuffer body (k :: rest) s =
    match eventBuffer (self s) !! k with
    | Some v =>
        match body k v s with
        | Ok (_, s1, l1) =>
            match range_eventBuffer body rest s1 with
            | Ok (b, s2, l2) => Ok (b, s2, l1 ++ l2)
            | Panic why => Panic why
            end
        | Panic why => Panic why
        end
    | None => range_eventBuffer body rest s
    end.
Proof.
  cbn [range_eventBuffer]. unfold mbind, M_bind, gets.
  destruct (eventBuffer (self s) !! k) as [v|].
  - destruct (body k v s) as [[[[] s1] l1]|]; [|done].
    destruct (range_eventBuffer body rest s1) as [[[[] s2] l2]|]; done.
  - cbn [mret M_ret].
    destruct (range_eventBuffer body rest s) as [[[[] s2] l2]|]; done.
Qed.

(** A goroutine of the sweep that no other goroutine interrupts does what
    [processBufferedEvents] does. *)
Lemma sweep_steps_uninterrupted now order : forall fuel s,
  (3 * length order + 1 <= fuel)%nat ->
  sweep_steps fuel now (AtRange order) s = processBufferedEvents now order s.
Proof.
  unfold processBufferedEvents.
  induction order as [|k rest IH]; intros fuel s Hfuel.
  - destruct fuel as [|fuel]; [simpl in Hfuel; lia|]. done.
  - simpl in Hfuel. destruct fuel as [|fuel]; [lia|].
    rewrite sweep_steps_S, sweep_step_AtRange, range_eventBuffer_cons.
    destruct (eventBuffer (self s) !! k) as [v|].
    + destruct fuel as [|fuel]; [lia|].
      rewrite sweep_steps_S, sweep_step_AtBody, sweep_entry_eq.
      destruct (heap s !! v) as [e|]; [|done].
      destruct fuel as [|fuel]; [lia|].
      rewrite sweep_steps_S, sweep_step_AtDelete. rewrite IH by lia.
      destruct (range_eventBuffer _ rest _) as [[[[] s2] l2]|]; done.
    + rewrite IH by lia.
      destruct (range_eventBuffer _ rest _) as [[[[] s2] l2]|]; done.
Qed.

(** The steps of the program keep the state well formed, and the
    notification source in place. *)
Lemma delete_wf s k :
  wf s -> wf (set_eventBuffer (delete k (eventBuffer (self s))) s).
Proof.
  intros Hwf. constructor; destruct s as [[pa fw dn buf dt] hp ts]; simpl in *.
  - intros k' p [_ Hp]%lookup_delete_Some. by apply (wf_valid _ Hwf _ _ Hp).
  - intros k1 k2 p [_ H1]%lookup_delete_Some [_ H2]%lookup_delete_Some.
    by apply (wf_inj _ Hwf _ _ _ H1 H2).
  - apply (wf_timer _ Hwf).
  - apply (wf_single _ Hwf).
Qed.

Lemma sweep_step_inv now pc s r s' l :
  sweep_step now pc s = Ok (r, s', l) ->
  wf s -> is_Some (fsWatcher (self s)) ->
  wf s' /\ is_Some (fsWatcher (self s')).
Proof.
  intros E Hwf Hfw. destruct pc as [[|k rest]|pth fe rest|pth rest].
  - by inversion E; subst.
  - rewrite sweep_step_AtRange in E. by inversion E; subst.
  - rewrite sweep_step_AtBody in E.
    destruct (heap s !! fe); [|done]. by inversion E; subst.
  - rewrite sweep_step_AtDelete in E. inversion E; subst.
    split; [by apply delete_wf|]. by destruct s as [[]].
Qed.

Lemma perform_inv a c c' :
  perform a c = Some c' ->
  wf (c_state c) -> is_Some (fsWatcher (self (c_state c))) ->
  wf (c_state c') /\ is_Some (fsWatcher (self (c_state c'))).
Proof.
  intros E Hwf Hfw. destruct a as [env now ev|t now order|i]; simpl in E.
  - destruct (bufferEvent_Ok env now ev _ Hwf Hfw) as (s' & l & E' & Hwf' & Hfw').
    rewrite E' in E. by inversion E; subst.
  - destruct (timers (c_state c) !! t) as [tm|] eqn:Ht; [|done].
    destruct (tstate tm); try done.
    destruct (_ && _); [|done]. inversion E; subst; simpl.
    split; [by apply fire_wf|]. by destruct (c_state c) as [[]].
  - destruct (c_sweeps c !! i) as [[now pc]|]; [|done].
    destruct (sweep_step now pc (c_state c)) as [[[r s'] l]|] eqn:Es; [|done].
    destruct (sweep_step_inv _ _ _ _ _ _ Es Hwf Hfw).
    destruct r; by inversion E; subst.
Qed.

Lemma reachable_inv init c :
  rtc step init c ->
  wf (c_state init) -> is_Some (fsWatcher (self (c_state init))) ->
  wf (c_state c) /\ is_Some (fsWatcher (self (c_state c))).
Proof.
  induction 1 as [|c1 c2 c3 [a Ha] _ IH]; intros Hwf Hfw; [done|].
  destruct (perform_inv _ _ _ Ha Hwf Hfw). by apply IH.
Qed.

Lemma schedule_reaches acts : forall c c',
  schedule acts c = Some c' -> rtc step c c'.
Proof.
  induction acts as [|a acts IH]; intros c c' E; simpl in E.
  - inversion E; subst. apply rtc_refl.
  - destruct (perform a c) as [c1|] eqn:Ea; [|done].
    eapply rtc_l; [by exists a|]. by apply IH.
Qed.

(** ** The states of the examples are well formed *)

Lemma New_wf root : wf (New root).
Proof.
  constructor; simpl; intros *; rewrite ?lookup_empty, ?lookup_nil; done.
Qed.

Lemma Start_wf env s r s' l :
  wf s -> Start env s = Ok (r, s', l) ->
  wf s' /\ (NewWatcherFails env = false -> is_Some (fsWatcher (self s'))).
Proof.
  intros Hwf E. unfold Start in E.
  destruct (NewWatcherFails env).
  - unfold mbind, M_bind, modify, logf in E. simpl in E. inversion E; subst.
    split; [by apply set_fsWatcher_wf|done].
  - unfold mbind, M_bind, modify, gets in E. simpl in E.
    edestruct (addRecursive_nil env (path (self s))
                 (set_fsWatcher (Some (mkFsWatcher ∅ false)) s)) as (fw' & l' & E').
    { by destruct s as [[]]. }
    replace (path (self (set_fsWatcher (Some (mkFsWatcher ∅ false)) s)))
      with (path (self s)) in E by (by destruct s as [[]]).
    rewrite E' in E. simpl in E. inversion E; subst.
    rewrite set_fsWatcher_twice.
    split; [by apply set_fsWatcher_wf|]. intros _. by destruct s as [[]].
Qed.

Lemma started_wf :
  wf Vault.started /\ is_Some (fsWatcher (self Vault.started)).
Proof.
  assert (E : exists l, Start Vault.env (New "/vault")
                        = Ok (StartWaiting, Vault.started, l)).
  { eexists. vm_compute. reflexivity. }
  destruct E as [l E].
  destruct (Start_wf _ _ _ _ _ (New_wf "/vault") E) as [Hwf Hfw].
  split; [exact Hwf|]. by apply Hfw.
Qed.

(** ** Mutual exclusion *)

(** C9, as it is stated, does not hold of the source: on the vault, the
    program reaches a configuration in which a goroutine of the sweep
    stands before the [delete] of the entry it has resolved, and there the
    ingestion of a write to the same file is possible. *)
Lemma sweep_and_ingest_not_mutually_excluded :
  ~ mutually_excluded Race.init.
Proof.
  intros Hex.
  destruct Race.inside_turn as [c|] eqn:E; [|by vm_compute in E].
  pose proof (schedule_reaches _ _ _ E) as Hreach.
  specialize (Hex c Hreach 100000000 (AtDelete Race.note []))%Z.
  vm_compute in E. inversion E as [Hc]. clear E.
  specialize (Hex ltac:(subst c; simpl; by left) eq_refl
                Vault.env 100000100%Z
                (fsnotify.mkEvent Race.note fsnotify.Write) eq_refl eq_refl).
  subst c. vm_compute in Hex. discriminate.
Qed.

(** C9, amended. Nothing excludes the ingestion from the sweep. From a
    well-formed state with its notification source, in every configuration
    that the program reaches, and so also while a goroutine of the sweep
    stands inside a turn of its loop, [watch] can ingest any raw event; the
    goroutines of the sweep are not affected. A sweep that no other
    goroutine interrupts does what [processBufferedEvents] does. And an
    ingestion that falls inside a turn of the sweep can be lost: on the
    vault, a write ingested after the sweep has resolved the note as
    created-empty and before it removes the entry is removed with the
    entry, and no event is dispatched for it, where the two orders that
    keep the sweep and the ingestion apart dispatch [created], or
    [created-empty] and then [modified]. *)
Theorem ingestion_is_not_excluded_from_sweep (init : Config) :
  wf (c_state init) ->
  is_Some (fsWatcher (self (c_state init))) ->
  (forall c, rtc step init c ->
     forall env now event, exists c',
       perform (Ingest env now event) c = Some c'
       /\ c_sweeps c' = c_sweeps c)
  /\ (forall now order fuel s,
        (3 * length order + 1 <= fuel)%nat ->
        sweep_steps fuel now (AtRange order) s
          = processBufferedEvents now order s)
  /\ Race.outcome Race.lost_write
       = Some ([(CreatedEmpty, Race.note)], [], [])
  /\ Race.outcome Race.write_then_sweep
       = Some ([(Created, Race.note)], [], [])
  /\ Race.outcome Race.sweep_then_write
       = Some ([(CreatedEmpty, Race.note); (Modified, Race.note)], [], []).
Proof.
  intros Hwf Hfw. split; [|split; [|split; [|split]]].
  - intros c Hreach env now event.
    destruct (reachable_inv _ _ Hreach Hwf Hfw) as [Hwfc Hfwc].
    destruct (bufferEvent_Ok env now event _ Hwfc Hfwc) as (s' & l & E & _).
    simpl. rewrite E. eauto.
  - intros now order fuel s Hfuel. by apply sweep_steps_uninterrupted.
  - vm_compute. reflexivity.
  - vm_compute. reflexivity.
  - vm_compute. reflexivity.
Qed.

(** ** The theorems at work on the vault *)

Lemma note_created_wf :
  wf Vault.note_created /\ is_Some (fsWatcher (self Vault.note_created)).
Proof.
  destruct started_wf as [Hwf Hfw].
  destruct (bufferEvent_Ok Vault.env 0
              (fsnotify.mkEvent Vault.note fsnotify.Create) _ Hwf Hfw)
    as (s' & l & E & Hwf' & Hfw').
  unfold Vault.note_created. by rewrite E.
Qed.

(** The note was created and nothing else happened: the sweep dispatches
    created-empty. Another note, created and then written, is dispatched
    as created when the timer of the write expires. *)
Lemma sweep_dispatches_by_table_witness :
  wf Vault.note_created
  /\ [Vault.note] ≡ₚ pending Vault.note_created
  /\ eventBuffer (self Vault.note_created) !! Vault.note = Some 0%nat
  /\ heap Vault.note_created !! 0%nat
     = Some (mkFileEvent Vault.note true false false 0)
  /\ (exists s' log,
        processBufferedEvents 100000000 [Vault.note] Vault.note_created
          = Ok (tt, s', log)
        /\ dispatched_for Vault.note log = [CreatedEmpty])
  /\ (exists s2 log2 t,
        ingest [mkRaw Vault.env 10 (fsnotify.mkEvent "/vault/notes/b.md" fsnotify.Create);
                mkRaw Vault.env 20 (fsnotify.mkEvent "/vault/notes/b.md" fsnotify.Write)]
          Vault.note_created = Ok (tt, s2, log2)
        /\ timers s2 !! t = Some (mkTimer 100000020 TimerActive)
        /\ forall order2, order2 ≡ₚ pending s2 ->
             exists s3 log3,
               timerExpiry t 100000020 order2 s2 = Ok (tt, s3, log3)
               /\ dispatched_for "/vault/notes/b.md" log3 = [Created]).
Proof.
  assert (H1 : wf Vault.note_created) by apply note_created_wf.
  assert (H2 : [Vault.note] ≡ₚ pending Vault.note_created)
    by decide_by_computation.
  assert (H3 : eventBuffer (self Vault.note_created) !! Vault.note = Some 0%nat)
    by (vm_compute; reflexivity).
  assert (H4 : heap Vault.note_created !! 0%nat
               = Some (mkFileEvent Vault.note true false false 0))
    by (vm_compute; reflexivity).
  destruct (sweep_dispatches_by_table Vault.note_created H1)
    as [Htable Hscenario].
  destruct (Htable 100000000 [Vault.note] Vault.note 0%nat _ H2 H3 H4)
    as (s' & log & E & Hd & _).
  split; [exact H1|]. split; [exact H2|]. split; [exact H3|]. split; [exact H4|].
  split.
  - exists s', log. split; [exact E|]. rewrite Hd. vm_compute. reflexivity.
  - destruct (Hscenario "/vault/notes/b.md"%string Vault.env Vault.env
                10 20 100000020)
      as (s2 & log2 & t & E2 & _ & _ & Ht & Hfire);
      [vm_compute; reflexivity|reflexivity|reflexivity|reflexivity|lia|lia|].
    exists s2, log2, t. split; [exact E2|]. split; [exact Ht|exact Hfire].
Defined.

(** A create on a path that is not pending sets [isNew] and nothing else,
    and arms the timer for 100 ms later. *)
Lemma bufferEvent_sets_flags_witness :
  wf Vault.started
  /\ isMarkdownFile Vault.note = true
  /\ isDirectory Vault.env Vault.note = false
  /\ exists s' log p e' t',
       bufferEvent Vault.env 5 (fsnotify.mkEvent Vault.note fsnotify.Create)
         Vault.started = Ok (tt, s', log)
       /\ heap s' !! p = Some e'
       /\ isNew e' = true /\ isModified e' = false /\ isDeleted e' = false
       /\ debounceTimer (self s') = Some t'
       /\ timers s' !! t' = Some (mkTimer 100000005 TimerActive).
Proof.
  assert (H1 : wf Vault.started) by apply started_wf.
  split; [exact H1|]. split; [reflexivity|]. split; [reflexivity|].
  destruct (bufferEvent_sets_flags_and_restarts_timer Vault.env 5
              (fsnotify.mkEvent Vault.note fsnotify.Create) Vault.started
              H1 eq_refl eq_refl)
    as (s' & log & p & e' & t' & E & _ & Hp & Hn & Hm & Hd & _ & Hdt & Ht & _).
  exists s', log, p, e', t'.
  split; [exact E|]. split; [exact Hp|].
  split; [rewrite Hn; vm_compute; reflexivity|].
  split; [rewrite Hm; vm_compute; reflexivity|].
  split; [rewrite Hd; vm_compute; reflexivity|].
  split; [exact Hdt|exact Ht].
Defined.

(** One sweep empties the pending set of the vault. *)
Lemma sweep_empties_pending_set_witness :
  wf Vault.note_created
  /\ [Vault.note] ≡ₚ pending Vault.note_created
  /\ pending Vault.note_created = [Vault.note]
  /\ exists s' log,
       processBufferedEvents 100000000 [Vault.note] Vault.note_created
         = Ok (tt, s', log)
       /\ pending s' = [].
Proof.
  assert (H1 : wf Vault.note_created) by apply note_created_wf.
  assert (H2 : [Vault.note] ≡ₚ pending Vault.note_created)
    by decide_by_computation.
  split; [exact H1|]. split; [exact H2|]. split; [vm_compute; reflexivity|].
  destruct (sweep_empties_pending_set Vault.note_created 100000000
              [Vault.note] H1 H2) as (s' & log & E & _ & Hp & _).
  exists s', log. split; [exact E|exact Hp].
Defined.

(** A write to the note that is pending keeps the map as it is. *)
Lemma bufferEvent_one_entry_witness :
  wf Vault.note_created
  /\ isMarkdownFile Vault.note = true
  /\ isDirectory Vault.env Vault.note = false
  /\ exists s' log,
       bufferEvent Vault.env 7 (fsnotify.mkEvent Vault.note fsnotify.Write)
         Vault.note_created = Ok (tt, s', log)
       /\ eventBuffer (self s') = eventBuffer (self Vault.note_created)
       /\ pending s' = [Vault.note].
Proof.
  assert (H1 : wf Vault.note_created) by apply note_created_wf.
  split; [exact H1|]. split; [reflexivity|]. split; [reflexivity|].
  destruct (bufferEvent_one_entry_per_path Vault.env 7
              (fsnotify.mkEvent Vault.note fsnotify.Write) Vault.note_created
              H1 eq_refl eq_refl)
    as (s' & log & E & _ & _ & Hpend & _).
  destruct (Hpend 0%nat) as (Hbuf & _); [vm_compute; reflexivity|].
  exists s', log. split; [exact E|]. split; [exact Hbuf|].
  unfold pending. rewrite Hbuf. vm_compute. reflexivity.
Defined.

(** A text file is not a markdown file, and its raw event is dropped. *)
Lemma isMarkdownFile_iff_and_discard_witness :
  isMarkdownFile "/vault/notes/todo.txt" = false
  /\ isDirectory Vault.env "/vault/notes/todo.txt" = false
  /\ bufferEvent Vault.env 3
       (fsnotify.mkEvent "/vault/notes/todo.txt" fsnotify.Write)
       Vault.note_created = Ok (tt, Vault.note_created, [])
  /\ isMarkdownFile Vault.note = true.
Proof.
  destruct (isMarkdownFile_iff_and_discard Vault.env 3
              (fsnotify.mkEvent "/vault/notes/todo.txt" fsnotify.Write)
              Vault.note_created Vault.note) as [Hiff Hdrop].
  split; [reflexivity|]. split; [reflexivity|].
  split; [exact (Hdrop eq_refl eq_refl)|].
  apply Hiff. repeat split.
Defined.

(** [Stop] on the started watcher of the vault. *)
Lemma Stop_witness :
  done (self Vault.started) = ChanOpen
  /\ Start_unblocked Vault.started = false
  /\ exists fw s',
       fsWatcher (self Vault.started) = Some fw
       /\ Stop Vault.started = Ok (None, s', [])
       /\ done (self s') = ChanClosed
       /\ Start_unblocked s' = true.
Proof.
  destruct (Stop_noop_before_Start_else_unblocks Vault.started)
    as (_ & _ & H & _).
  destruct (fsWatcher (self Vault.started)) as [fw|] eqn:Hfw;
    [|by vm_compute in Hfw].
  destruct (H fw eq_refl) as (Hblocked & s' & E & _ & _ & Hd & Hu & _);
    [vm_compute; reflexivity|].
  split; [vm_compute; reflexivity|]. split; [exact Hblocked|].
  exists fw, s'. split; [reflexivity|]. split; [exact E|]. split; [exact Hd|exact Hu].
Defined.

(** On the vault, the ingestion is possible inside a turn of the sweep. *)
Lemma ingestion_is_not_excluded_witness :
  wf (c_state Race.init)
  /\ is_Some (fsWatcher (self (c_state Race.init)))
  /\ exists c c',
       Race.inside_turn = Some c
       /\ c_sweeps c = [(100000000, AtDelete Race.note [])]
       /\ perform (Ingest Vault.env 100000100
                     (fsnotify.mkEvent Race.note fsnotify.Write)) c = Some c'.
Proof.
  destruct started_wf as [H1 H2].
  split; [exact H1|]. split; [exact H2|].
  destruct (ingestion_is_not_excluded_from_sweep Race.init H1 H2) as (Hen & _).
  destruct Race.inside_turn as [c|] eqn:E; [|by vm_compute in E].
  destruct (Hen c (schedule_reaches _ _ _ E) Vault.env 100000100
              (fsnotify.mkEvent Race.note fsnotify.Write)) as (c' & Ec' & _).
  exists c, c'. split; [reflexivity|]. split; [|exact Ec'].
  vm_compute in E. inversion E. reflexivity.
Defined.

(** The note is removed, then created and written again: the sweep
    dispatches deleted. *)
Lemma flags_monotone_deleted_wins_witness :
  wf Vault.note_created
  /\ is_Some (fsWatcher (self Vault.note_created))
  /\ isMarkdownFile Vault.note = true
  /\ isDirectory Vault.env Vault.note = false
  /\ exists s' l ptr e',
       ingest [mkRaw Vault.env 10 (fsnotify.mkEvent Vault.note fsnotify.Remove);
               mkRaw Vault.env 20 (fsnotify.mkEvent Vault.note fsnotify.Create);
               mkRaw Vault.env 30 (fsnotify.mkEvent Vault.note fsnotify.Write)]
         Vault.note_created = Ok (tt, s', l)
       /\ eventBuffer (self s') !! Vault.note = Some ptr
       /\ heap s' !! ptr = Some e'
       /\ isDeleted e' = true.
Proof.
  destruct note_created_wf as [H1 H2].
  split; [exact H1|]. split; [exact H2|]. split; [reflexivity|]. split; [reflexivity|].
  destruct (flags_monotone_deleted_wins
              (mkRaw Vault.env 10 (fsnotify.mkEvent Vault.note fsnotify.Remove))
              [mkRaw Vault.env 20 (fsnotify.mkEvent Vault.note fsnotify.Create);
               mkRaw Vault.env 30 (fsnotify.mkEvent Vault.note fsnotify.Write)]
              Vault.note_created H1 H2 eq_refl eq_refl)
    as (s1 & l1 & ptr & e1 & s' & l & e' & E1 & _ & _ & E & Hk & Hp & _ & Hdel).
  destruct Hdel as (_ & Hd & _); [by left|].
  exists s', (l1 ++ l), ptr, e'.
  split; [|split; [exact Hk|split; [exact Hp|exact Hd]]].
  rewrite (ingest_cons _ _ _ _ _ E1), E. reflexivity.
Defined.

(** * Further properties of the watcher *)

(** ** Events on other paths *)

(** A raw event leaves the entry of every other path as it is: the same
    cell, with the same content. *)
Lemma bufferEvent_other_path env now ev s s' l p ptr e :
  wf s ->
  bufferEvent env now ev s = Ok (tt, s', l) ->
  fsnotify.Name ev <> p ->
  eventBuffer (self s) !! p = Some ptr ->
  heap s !! ptr = Some e ->
  eventBuffer (self s') !! p = Some ptr /\ heap s' !! ptr = Some e.
Proof.
  intros Hwf H Hne Hk Hp.
  destruct (isDirectory env (fsnotify.Name ev)) eqn:Hd.
  - rewrite bufferEvent_dir in H by done.
    unfold handleDirectoryEvent in H.
    destruct (fsnotify.Has _ _).
    + unfold mbind, M_bind, logf, fsWatcher_Add in H.
      destruct (fsWatcher (self s)) as [fw|]; [|done].
      destruct (Watcher_Add env (fsnotify.Name ev) fw) as [fw' [|]];
        simpl in H; simplify_eq; by destruct s as [[]].
    + by inversion H; subst.
  - destruct (isMarkdownFile (fsnotify.Name ev)) eqn:Hm.
    + rewrite bufferEvent_file in H by done.
      destruct (eventBuffer (self s) !! fsnotify.Name ev) as [q|] eqn:Hq.
      * destruct (wf_valid _ Hwf _ _ Hq) as [fe Hfe].
        rewrite (bufferFileEvent_pending _ _ _ _ _ Hwf Hq Hfe) in H.
        simplify_eq; simpl. split; [done|].
        rewrite list_lookup_insert_ne; [done|].
        intros ->. apply Hne. by eapply (wf_inj _ Hwf).
      * rewrite (bufferFileEvent_fresh _ _ _ Hwf Hq) in H.
        simplify_eq; simpl. split; [by rewrite lookup_insert_ne|].
        by apply lookup_app_l_Some.
    + rewrite bufferEvent_discard in H by done. by inversion H; subst.
Qed.

Lemma ingest_other_paths raws : forall s p ptr e,
  wf s -> is_Some (fsWatcher (self s)) ->
  Forall (fun r => fsnotify.Name (raw_event r) <> p) raws ->
  eventBuffer (self s) !! p = Some ptr ->
  heap s !! ptr = Some e ->
  exists s' l,
    ingest raws s = Ok (tt, s', l)
    /\ wf s'
    /\ eventBuffer (self s') !! p = Some ptr
    /\ heap s' !! ptr = Some e.
Proof.
  induction raws as [|r raws IH]; intros s p ptr e Hwf Hfw Hall Hk Hp.
  - by exists s, [].
  - apply Forall_cons in Hall as [Hr Hall].
    destruct (bufferEvent_Ok (raw_env r) (raw_now r) (raw_event r) s Hwf Hfw)
      as (s1 & l1 & E1 & Hwf1 & Hfw1).
    destruct (bufferEvent_other_path _ _ _ _ _ _ _ _ _ Hwf E1 Hr Hk Hp) as [Hk1 Hp1].
    destruct (IH s1 p ptr e Hwf1 Hfw1 Hall Hk1 Hp1) as (s' & l & E & Hwf' & Hk' & Hp').
    exists s', (l1 ++ l). rewrite (ingest_cons _ _ _ _ _ E1), E. done.
Qed.

(** ** When [bufferEvent] panics *)

(** X1. On a well-formed state [bufferEvent] panics in one case only: the
    path is a directory, the operation carries create, and the watcher has
    no notification source (the nil pointer is dereferenced in
    [handleDirectoryEvent]). In every other case it returns, and the state
    it leaves is well formed. *)
Theorem bufferEvent_panics_iff
    (env : Env) (now : time.Time) (ev : fsnotify.Event) (s : State) :
  wf s ->
  ((exists why, bufferEvent env now ev s = Panic why)
   <-> isDirectory env (fsnotify.Name ev) = true
       /\ fsnotify.Has (fsnotify.EvOp ev) fsnotify.Create = true
       /\ fsWatcher (self s) = None)
  /\ (forall s' l, bufferEvent env now ev s = Ok (tt, s', l) -> wf s').
Proof.
  intros Hwf.
  destruct (isDirectory env (fsnotify.Name ev)) eqn:Hd.
  - rewrite bufferEvent_dir by done. unfold handleDirectoryEvent.
    destruct (fsnotify.Has _ _).
    + unfold mbind, M_bind, logf, fsWatcher_Add.
      destruct (fsWatcher (self s)) as [fw|] eqn:Hfw.
      * destruct (Watcher_Add env (fsnotify.Name ev) fw) as [fw' [|]]; simpl;
          (split; [split; [by intros [? ?]|by intros (_ & _ & ?)]|]);
          intros s' l E; simplify_eq; by apply set_fsWatcher_wf.
      * split; [split; [done|eauto]|]. intros s' l E. done.
    + split; [split; [by intros [? ?]|by intros (_ & ? & _)]|].
      intros s' l E. by inversion E; subst.
  - destruct (isMarkdownFile (fsnotify.Name ev)) eqn:Hm.
    + rewrite bufferEvent_file by done.
      destruct (bufferFileEvent_after now ev s Hwf) as (s1 & p & E & Hwf1 & _).
      rewrite E. split; [split; [by intros [? ?]|by intros (? & _)]|].
      intros s' l E'. by simplify_eq.
    + rewrite bufferEvent_discard by done.
      split; [split; [by intros [? ?]|by intros (? & _)]|].
      intros s' l E'. by simplify_eq.
Qed.

(** ** A burst of raw events on one path *)

Lemma seen_cons bit e evs :
  seen bit (e :: evs) = fsnotify.Has e.2 bit || seen bit evs.
Proof. done. Qed.

Lemma seen_Permutation bit evs1 evs2 :
  evs1 ≡ₚ evs2 -> seen bit evs1 = seen bit evs2.
Proof.
  induction 1 as [|e l1 l2 _ IH|e1 e2 l|l1 l2 l3 _ IH1 _ IH2];
    rewrite ?seen_cons; [done|by rewrite IH| |congruence].
  by destruct (fsnotify.Has e1.2 bit), (fsnotify.Has e2.2 bit).
Qed.

(** The cell of the path after a burst, event after event. *)
Lemma burst_cell env p evs : forall t0 op0 s,
  wf s ->
  isMarkdownFile p = true ->
  isDirectory env p = false ->
  let old := entry_before s p t0 in
  let all := (t0, op0) :: evs in
  exists s' l ptr,
    ingest (burst env p all) s = Ok (tt, s', l)
    /\ wf s'
    /\ eventBuffer (self s') !! p = Some ptr
    /\ heap s' !! ptr =
       Some (mkFileEvent (fe_path old)
               (isNew old || seen fsnotify.Create all)
               (isModified old || seen fsnotify.Write all)
               (isDeleted old || seen fsnotify.Remove all
                              || seen fsnotify.Rename all)
               (last_time t0 evs)).
Proof.
  induction evs as [|[t1 op1] evs IH]; intros t0 op0 s Hwf Hm Hd old all.
  - destruct (bufferFileEvent_after t0 (fsnotify.mkEvent p op0) s Hwf)
      as (s1 & ptr & E1 & Hwf1 & Hk1 & Hp1 & _).
    exists s1, (op_log op0 p ++ []), ptr.
    split.
    { change (burst env p all) with [mkRaw env t0 (fsnotify.mkEvent p op0)].
      erewrite ingest_cons; [done|].
      cbn [raw_env raw_now raw_event]. rewrite bufferEvent_file by done. exact E1. }
    split; [done|]. split; [done|].
    simpl in Hp1. rewrite Hp1. unfold spec_ingest, seen; simpl.
    by rewrite !orb_false_r.
  - destruct (bufferFileEvent_after t0 (fsnotify.mkEvent p op0) s Hwf)
      as (s1 & ptr & E1 & Hwf1 & Hk1 & Hp1 & _).
    simpl in Hk1, Hp1.
    destruct (IH t1 op1 s1 Hwf1 Hm Hd) as (s' & l & ptr' & E & Hwf' & Hk' & Hp').
    rewrite (entry_before_pending _ _ _ _ _ Hk1 Hp1) in Hp'.
    exists s', (op_log op0 p ++ l), ptr'.
    split.
    { change (burst env p all)
        with (mkRaw env t0 (fsnotify.mkEvent p op0) :: burst env p ((t1, op1) :: evs)).
      erewrite ingest_cons; [by rewrite E|].
      cbn [raw_env raw_now raw_event]. rewrite bufferEvent_file by done. exact E1. }
    split; [done|]. split; [done|].
    rewrite Hp'. unfold spec_ingest. cbn [fe_path isNew isModified isDeleted].
    subst all. rewrite !(seen_cons _ (t0, op0)). cbn [snd].
    assert (last_time t0 ((t1, op1) :: evs) = last_time t1 evs) as ->.
    { unfold last_time. destruct evs as [|e evs]; [done|].
      rewrite last_cons_cons.
      destruct (last (e :: evs)) eqn:El; [done|]. by apply last_None in El. }
    fold old.
    f_equal. f_equal;
      repeat match goal with
             | |- context [fsnotify.Has ?a ?b] => generalize (fsnotify.Has a b); intro
             | |- context [seen ?a ?b] => generalize (seen a b); intro
             | |- context [isNew ?a] => generalize (isNew a); intro
             | |- context [isModified ?a] => generalize (isModified a); intro
             | |- context [isDeleted ?a] => generalize (isDeleted a); intro
             end;
      repeat match goal with b : bool |- _ => destruct b end; reflexivity.
Qed.

(** X2. The entry of a path after a burst of raw events on it depends on
    the burst only through the operation bits that occur in it and the time
    of its last event: each flag is the flag the entry had, or-ed with
    "some event of the burst carries the bit". The order of the events
    does not matter: two bursts with the same events in different orders
    leave the same three flags. *)
Theorem burst_flags_are_union_of_bits
    (env : Env) (p : string) (s : State)
    (t0 : time.Time) (op0 : fsnotify.Op) (evs : list (time.Time * fsnotify.Op)) :
  wf s ->
  isMarkdownFile p = true ->
  isDirectory env p = false ->
  let old := entry_before s p t0 in
  let all := (t0, op0) :: evs in
  (exists s' l ptr e',
     ingest (burst env p all) s = Ok (tt, s', l)
     /\ eventBuffer (self s') !! p = Some ptr
     /\ heap s' !! ptr = Some e'
     /\ isNew e' = isNew old || seen fsnotify.Create all
     /\ isModified e' = isModified old || seen fsnotify.Write all
     /\ isDeleted e' = isDeleted old || seen fsnotify.Remove all
                                     || seen fsnotify.Rename all
     /\ lastSeen e' = last_time t0 evs)
  /\ (forall t0' op0' evs',
        (t0', op0') :: evs' ≡ₚ all ->
        exists s1 l1 ptr1 e1 s2 l2 ptr2 e2,
          ingest (burst env p all) s = Ok (tt, s1, l1)
          /\ eventBuffer (self s1) !! p = Some ptr1
          /\ heap s1 !! ptr1 = Some e1
          /\ ingest (burst env p ((t0', op0') :: evs')) s = Ok (tt, s2, l2)
          /\ eventBuffer (self s2) !! p = Some ptr2
          /\ heap s2 !! ptr2 = Some e2
          /\ isNew e1 = isNew e2
          /\ isModified e1 = isModified e2
          /\ isDeleted e1 = isDeleted e2).
Proof.
  intros Hwf Hm Hd old all.
  destruct (burst_cell env p evs t0 op0 s Hwf Hm Hd)
    as (s1 & l1 & ptr1 & E1 & _ & Hk1 & Hp1).
  split.
  { eexists s1, l1, ptr1, _. split; [exact E1|]. split; [exact Hk1|].
    split; [exact Hp1|]. done. }
  intros t0' op0' evs' Hperm.
  destruct (burst_cell env p evs' t0' op0' s Hwf Hm Hd)
    as (s2 & l2 & ptr2 & E2 & _ & Hk2 & Hp2).
  eexists s1, l1, ptr1, _, s2, l2, ptr2, _.
  split; [exact E1|]. split; [exact Hk1|]. split; [exact Hp1|].
  split; [exact E2|]. split; [exact Hk2|]. split; [exact Hp2|].
  cbn [isNew isModified isDeleted].
  rewrite !(seen_Permutation _ _ _ Hperm).
  assert (Hold : isNew (entry_before s p t0') = isNew (entry_before s p t0)
                 /\ isModified (entry_before s p t0') = isModified (entry_before s p t0)
                 /\ isDeleted (entry_before s p t0') = isDeleted (entry_before s p t0)).
  { unfold entry_before. destruct (eventBuffer (self s) !! p) as [q|]; [|done].
    by destruct (heap s !! q). }
  destruct Hold as (-> & -> & ->). done.
Qed.

(** ** The quiet period *)

(** X3. After the ingestion of a raw event for a markdown file at time
    [now], no timer runs the sweep before [now + 100 ms]: the expiry of any
    timer at an earlier time does nothing, whatever was pending and however
    long it has been pending. From [now + 100 ms] on, the expiry of the
    timer of the watcher sweeps the pending set and leaves it empty. *)
Theorem no_sweep_within_quiet_period
    (env : Env) (now : time.Time) (ev : fsnotify.Event) (s : State) :
  wf s ->
  isMarkdownFile (fsnotify.Name ev) = true ->
  isDirectory env (fsnotify.Name ev) = false ->
  exists s' l t',
    bufferEvent env now ev s = Ok (tt, s', l)
    /\ debounceTimer (self s') = Some t'
    /\ (forall t now' order,
          now' < now + 100 * 1000000 ->
          timerExpiry t now' order s' = Ok (tt, s', []))
    /\ (forall now' order,
          now + 100 * 1000000 <= now' ->
          order ≡ₚ pending s' ->
          exists s'' l',
            timerExpiry t' now' order s' = Ok (tt, s'', l')
            /\ pending s'' = []).
Proof.
  intros Hwf Hm Hd.
  destruct (bufferFileEvent_after now ev s Hwf)
    as (s' & p & E & Hwf' & Hk & Hp & Hdt & Hts & _).
  exists s', (op_log (fsnotify.EvOp ev) (fsnotify.Name ev)), (length (timers s)).
  rewrite bufferEvent_file by done.
  assert (Hnew : timers s' !! length (timers s)
                 = Some (mkTimer (now + debounce) TimerActive)).
  { rewrite Hts, <- stopped_timers_length. by apply list_lookup_middle. }
  split; [exact E|]. split; [exact Hdt|]. split.
  - intros t now' order Hearly.
    unfold timerExpiry, mbind, M_bind, gets.
    destruct (timers s' !! t) as [tm|] eqn:Ht; [|done].
    destruct (tstate tm) eqn:Hst; try done.
    pose proof (wf_single _ Hwf' _ _ Ht Hst) as Ht'.
    rewrite Hdt in Ht'. injection Ht' as <-. rewrite Hnew in Ht.
    injection Ht as <-. simpl.
    destruct (now + debounce <=? now') eqn:Hle; [|done].
    apply Z.leb_le in Hle. unfold debounce, time.Millisecond, time.Nanosecond in Hle.
    lia.
  - intros now' order Hdue Hperm.
    rewrite (timerExpiry_due _ _ _ _ _ Hnew eq_refl)
      by (simpl; unfold debounce, time.Millisecond, time.Nanosecond; lia).
    pose proof (fire_wf _ _ _ Hwf' Hnew) as Hwf''.
    rewrite (sweep_pending now' order _ Hwf'') by (by rewrite pending_set_timers).
    eexists _, _. split; [done|].
    unfold pending. simpl. by rewrite map_to_list_empty.
Qed.

(** ** Entries that go stale *)

(** X4. A pending entry is lost when the sweep comes more than five
    seconds after its last event. While raw events for other paths are
    ingested (each restarts the one timer), the entry keeps its cell, its
    flags and its [lastSeen]; at a sweep with [now - lastSeen] above five
    seconds nothing is dispatched for the path and nothing about it is
    logged, and the entry is removed with the others. *)
Theorem stale_entry_is_lost_silently
    (raws : list Raw) (s : State) (p : string) (ptr : nat) (e : fileEvent) :
  wf s ->
  is_Some (fsWatcher (self s)) ->
  Forall (fun r => fsnotify.Name (raw_event r) <> p) raws ->
  eventBuffer (self s) !! p = Some ptr ->
  heap s !! ptr = Some e ->
  exists s' l,
    ingest raws s = Ok (tt, s', l)
    /\ eventBuffer (self s') !! p = Some ptr
    /\ heap s' !! ptr = Some e
    /\ forall now order,
         order ≡ₚ pending s' ->
         now - lastSeen e > 5 * 1000000000 ->
         exists s'' log,
           processBufferedEvents now order s' = Ok (tt, s'', log)
           /\ dispatched_for p log = []
           /\ (MsgUnknownPattern p ∉ log)
           /\ eventBuffer (self s'') !! p = None.
Proof.
  intros Hwf Hfw Hall Hk Hp.
  destruct (ingest_other_paths raws s p ptr e Hwf Hfw Hall Hk Hp)
    as (s' & l & E & Hwf' & Hk' & Hp').
  exists s', l. split; [exact E|]. split; [exact Hk'|]. split; [exact Hp'|].
  intros now order Hperm Hstale.
  destruct (sweep_resolves now order s' p ptr e Hwf' Hperm Hk' Hp')
    as (log & Es & H1 & H2).
  eexists _, log. split; [exact Es|].
  assert (Hres : spec_resolution now e = StaleDrop).
  { unfold spec_resolution. by rewrite decide_True. }
  rewrite Hres in H1, H2. split; [exact H1|]. split.
  - intros Hin. apply H2 in Hin. discriminate.
  - simpl. apply lookup_empty.
Qed.

(** ** The order of the sweep *)

Lemma concat_Permutation {A} (ls1 ls2 : list (list A)) :
  ls1 ≡ₚ ls2 -> concat ls1 ≡ₚ concat ls2.
Proof.
  induction 1 as [|x l1 l2 _ IH|x y l|l1 l2 l3 _ IH1 _ IH2]; simpl.
  - done.
  - by rewrite IH.
  - rewrite !app_assoc. f_equiv. apply Permutation_app_comm.
  - by etrans.
Qed.

(** X5. The outcome of a sweep does not depend on the order in which Go's
    [range] produces the keys of the map: two sweeps of the same state over
    the pending keys in two orders leave the same state, and log the same
    lines and dispatch the same logical events, up to their order. *)
Theorem sweep_is_independent_of_map_order
    (s : State) (now : time.Time) (order1 order2 : list string) :
  wf s ->
  order1 ≡ₚ pending s ->
  order2 ≡ₚ pending s ->
  exists s' log1 log2,
    processBufferedEvents now order1 s = Ok (tt, s', log1)
    /\ processBufferedEvents now order2 s = Ok (tt, s', log2)
    /\ log1 ≡ₚ log2
    /\ dispatched log1 ≡ₚ dispatched log2.
Proof.
  intros Hwf H1 H2.
  eexists _, _, _.
  split; [by apply sweep_pending|]. split; [by apply sweep_pending|].
  assert (Hlog : concat (entry_log now s <$> order1)
                 ≡ₚ concat (entry_log now s <$> order2)).
  { apply concat_Permutation. f_equiv. by rewrite H1, H2. }
  split; [exact Hlog|]. unfold dispatched. by rewrite Hlog.
Qed.

(** ** What a sweep dispatches *)

Lemma dispatched_app l1 l2 :
  dispatched (l1 ++ l2) = dispatched l1 ++ dispatched l2.
Proof. apply omap_app. Qed.

Lemma dispatched_sweep_log now k e :
  (dispatched (sweep_log now k e)).*2 = []
  \/ (dispatched (sweep_log now k e)).*2 = [k].
Proof.
  unfold sweep_log. destruct (StaleThreshold <? _); [by left|].
  destruct (isDeleted e); [by right|].
  destruct (isNew e), (isModified e); simpl; auto.
Qed.

Lemma dispatched_entry_log now s k :
  (dispatched (entry_log now s k)).*2 = []
  \/ (dispatched (entry_log now s k)).*2 = [k].
Proof.
  unfold entry_log.
  destruct (eventBuffer (self s) !! k) as [p|]; [|by left].
  destruct (heap s !! p) as [e|]; [|by left].
  apply dispatched_sweep_log.
Qed.

Lemma dispatched_paths_sublist now s order :
  (dispatched (concat (entry_log now s <$> order))).*2 `sublist_of` order.
Proof.
  induction order as [|k rest IH]; [done|].
  rewrite fmap_cons. cbn [concat]. rewrite dispatched_app, fmap_app.
  destruct (dispatched_entry_log now s k) as [-> | ->].
  - by apply sublist_cons.
  - by apply sublist_skip.
Qed.

(** X6. A sweep dispatches at most one logical event for each path, and
    only for paths that were pending when it started: the paths of the
    dispatched events are distinct, each is a key of the pending set, and
    there are no more events than pending entries. *)
Theorem sweep_dispatches_once_per_pending_path
    (s : State) (now : time.Time) (order : list string) :
  wf s ->
  order ≡ₚ pending s ->
  exists s' log,
    processBufferedEvents now order s = Ok (tt, s', log)
    /\ NoDup (dispatched log).*2
    /\ (forall k q, (k, q) ∈ dispatched log ->
          is_Some (eventBuffer (self s) !! q))
    /\ (length (dispatched log) <= size (eventBuffer (self s)))%nat.
Proof.
  intros Hwf Hperm.
  destruct (order_pending s order Hwf Hperm) as (Hnd & Hall & _).
  pose proof (dispatched_paths_sublist now s order) as Hsub.
  eexists _, _. split; [by apply sweep_pending|]. split; [|split].
  - by eapply sublist_NoDup.
  - intros k q Hin.
    assert (Hq : q ∈ order).
    { eapply elem_of_sublist; [|exact Hsub].
      apply list_elem_of_fmap. by exists (k, q). }
    destruct (Hall q Hq) as (p & -> & _). eauto.
  - apply sublist_length in Hsub. rewrite length_fmap in Hsub.
    rewrite <- length_map_to_list.
    apply Permutation_length in Hperm. unfold pending in Hperm.
    rewrite length_fmap in Hperm. lia.
Qed.

(** ** Raw events for directories *)

(** X7. A raw event whose path is a directory never enters the pending set
    and never touches the timer, also when the name of the directory ends
    in [.md]: the map, the heap and the timers are as before. Only a create
    reaches the notification source; it never removes a watch, and when the
    operating system refuses the new watch the failure is logged and the
    source is as before. For every other operation (remove, rename, write,
    chmod) the state is unchanged and nothing is logged. *)
Theorem directory_event_only_touches_source
    (env : Env) (now : time.Time) (ev : fsnotify.Event) (s : State)
    (fw : FsWatcher) :
  isDirectory env (fsnotify.Name ev) = true ->
  fsWatcher (self s) = Some fw ->
  exists fw' l,
    bufferEvent env now ev s = Ok (tt, set_fsWatcher (Some fw') s, l)
    /\ watches fw ⊆ watches fw'
    /\ (fsnotify.Has (fsnotify.EvOp ev) fsnotify.Create = false ->
        fw' = fw /\ l = [])
    /\ (fsnotify.Has (fsnotify.EvOp ev) fsnotify.Create = true ->
        (fsClosed fw || AddFails env (fsnotify.Name ev) = true ->
         fw' = fw
         /\ l = [MsgNewDirectory (fsnotify.Name ev);
                 MsgFailedWatchNew (fsnotify.Name ev)])
        /\ (fsClosed fw || AddFails env (fsnotify.Name ev) = false ->
            watches fw' = {[fsnotify.Name ev]} ∪ watches fw
            /\ l = [MsgNewDirectory (fsnotify.Name ev)])).
Proof.
  intros Hd Hfw. rewrite bufferEvent_dir by done. unfold handleDirectoryEvent.
  destruct (fsnotify.Has _ _).
  - unfold mbind, M_bind, logf, fsWatcher_Add, Watcher_Add. rewrite Hfw.
    destruct (fsClosed fw); simpl.
    { exists fw, [MsgNewDirectory (fsnotify.Name ev);
                  MsgFailedWatchNew (fsnotify.Name ev)].
      split; [done|]. split; [done|]. split; [done|]. intros _. split; done. }
    destruct (AddFails env (fsnotify.Name ev)); simpl.
    { exists fw, [MsgNewDirectory (fsnotify.Name ev);
                  MsgFailedWatchNew (fsnotify.Name ev)].
      split; [done|]. split; [done|]. split; [done|]. intros _. split; done. }
    eexists _, _. split; [done|]. simpl.
    split; [apply union_subseteq_r|]. split; [done|]. intros _. split; done.
  - exists fw, []. rewrite set_fsWatcher_id by done.
    split; [done|]. split; [done|]. split; done.
Qed.

(** ** The life cycle *)

(** X8. [Stop] cannot be called twice on a watcher that was started: the
    first call closes the channel [done], and the second closes it again
    and panics. *)
Theorem Stop_twice_panics_on_started_watcher (s : State) (fw : FsWatcher) :
  fsWatcher (self s) = Some fw ->
  done (self s) = ChanOpen ->
  exists s1,
    Stop s = Ok (None, s1, [])
    /\ Stop s1 = Panic "close of closed channel"
    /\ (Stop ;; Stop) s = Panic "close of closed channel".
Proof.
  intros Hfw Hdone.
  assert (E : Stop s = Ok (None, set_fsWatcher (Some (Watcher_Close fw))
                                   (set_done ChanClosed s), [])).
  { unfold Stop, mbind, M_bind, gets, close_done, modify.
    rewrite Hfw, Hdone. simpl. by destruct s as [[]]. }
  eexists. split; [exact E|].
  assert (E2 : Stop (set_fsWatcher (Some (Watcher_Close fw)) (set_done ChanClosed s))
               = Panic "close of closed channel").
  { apply (Stop_twice_panics _ (Watcher_Close fw)); by destruct s as [[]]. }
  split; [exact E2|].
  unfold mbind at 1, M_bind at 1. rewrite E. by rewrite E2.
Qed.

(** X9. [Stop] does not stop the debounce timer: what is pending at the
    time of [Stop] is still swept when the timer expires afterwards. For
    every pending entry the sweep after [Stop] dispatches what the table of
    the specification gives, as it would without [Stop]. *)
Theorem Stop_does_not_cancel_pending_sweep
    (s : State) (fw : FsWatcher) (t : nat) (tm : Timer)
    (now : time.Time) (order : list string) :
  wf s ->
  fsWatcher (self s) = Some fw ->
  done (self s) = ChanOpen ->
  timers s !! t = Some tm -> tstate tm = TimerActive -> when tm <= now ->
  order ≡ₚ pending s ->
  exists s1,
    Stop s = Ok (None, s1, [])
    /\ timers s1 !! t = Some tm
    /\ pending s1 = pending s
    /\ exists s2 log,
         timerExpiry t now order s1 = Ok (tt, s2, log)
         /\ pending s2 = []
         /\ forall p ptr e,
              eventBuffer (self s) !! p = Some ptr ->
              heap s !! ptr = Some e ->
              dispatched_for p log = spec_dispatches (spec_resolution now e).
Proof.
  intros Hwf Hfw Hdone Ht Hact Hdue Hperm.
  set (s1 := set_fsWatcher (Some (Watcher_Close fw)) (set_done ChanClosed s)).
  assert (E : Stop s = Ok (None, s1, [])).
  { unfold Stop, mbind, M_bind, gets, close_done, modify.
    rewrite Hfw, Hdone. simpl. by destruct s as [[]]. }
  assert (Hwf1 : wf s1).
  { apply set_fsWatcher_wf. destruct Hwf as [? ? ? ?].
    constructor; by destruct s as [[]]. }
  assert (Ht1 : timers s1 !! t = Some tm) by (by destruct s as [[]]).
  assert (Hp1 : pending s1 = pending s) by (by destruct s as [[]]).
  exists s1. split; [exact E|]. split; [exact Ht1|]. split; [exact Hp1|].
  rewrite (timerExpiry_due _ _ _ _ _ Ht1 Hact Hdue).
  pose proof (fire_wf _ _ _ Hwf1 Ht1) as Hwf2.
  assert (Hperm2 : order ≡ₚ pending
            (set_timers (<[t:=mkTimer (when tm) TimerFired]> (timers s1)) s1)).
  { by rewrite pending_set_timers, Hp1. }
  destruct (order_pending _ order Hwf2 Hperm2) as (Hnd & _ & Hcov).
  eexists _, _. split; [by apply sweep_pending|].
  split; [unfold pending; simpl; by rewrite map_to_list_empty|].
  intros p ptr e Hk Hp.
  destruct (log_of_key now
              (set_timers (<[t:=mkTimer (when tm) TimerFired]> (timers s1)) s1)
              p order Hnd) as [E1 _].
  { apply Hcov. destruct s as [[]]; simpl in *. eauto. }
  rewrite E1. unfold entry_log.
  assert (Hk' : eventBuffer (self (set_timers
                   (<[t:=mkTimer (when tm) TimerFired]> (timers s1)) s1)) !! p
                = Some ptr) by (by destruct s as [[]]).
  assert (Hp' : heap (set_timers
                   (<[t:=mkTimer (when tm) TimerFired]> (timers s1)) s1) !! ptr
                = Some e) by (by destruct s as [[]]).
  rewrite Hk', Hp'. apply sweep_log_spec.
Qed.

(** X10. The life cycle of the callers. On a new watcher, whatever the
    file tree under the root and whatever registrations fail, [Start]
    returns no error when the notification source can be created: it waits
    on [done]. [Stop] then returns nil, closes the source with all its
    watches, and lets [Start] return. In the other order [Stop] has no
    effect: a [Start] that comes after it waits, and nothing unblocks
    it. *)
Theorem Start_then_Stop_returns (env : Env) (root : string) :
  NewWatcherFails env = false ->
  (exists s1 l1 s2,
     Start env (New root) = Ok (StartWaiting, s1, l1)
     /\ Start_unblocked s1 = false
     /\ Stop s1 = Ok (None, s2, [])
     /\ Start_unblocked s2 = true
     /\ fsWatcher (self s2) = Some (mkFsWatcher ∅ true)
     /\ pending s2 = [])
  /\ (exists s1 l1,
        Stop (New root) = Ok (None, New root, [])
        /\ Start env (New root) = Ok (StartWaiting, s1, l1)
        /\ Start_unblocked s1 = false).
Proof.
  intros Hnew.
  assert (HS : exists fw' l, Start env (New root)
            = Ok (StartWaiting, set_fsWatcher (Some fw') (New root), l)).
  { unfold Start. rewrite Hnew. unfold mbind, M_bind, modify, gets. simpl.
    edestruct (addRecursive_nil env root
                 (set_fsWatcher (Some (mkFsWatcher ∅ false)) (New root)))
      as (fw' & l' & E'); [done|].
    simpl in E'. rewrite E'. simpl. eauto. }
  destruct HS as (fw' & l & E). split.
  - eexists _, l, _. split; [exact E|]. split; [done|].
    split; [|split; [|split]]; done.
  - eexists _, l. split; [done|]. split; [exact E|done].
Qed.

(** X11. [Start] returns an error exactly when the notification source
    cannot be created. It then has logged that failure and nothing else,
    the source of the watcher is nil, no directory was visited, and a
    [Stop] that follows returns nil and changes nothing. *)
Theorem Start_fails_only_without_source (env : Env) (s : State) :
  ((exists e s' l, Start env s = Ok (StartReturned e, s', l))
   <-> NewWatcherFails env = true)
  /\ (NewWatcherFails env = true ->
      Start env s
        = Ok (StartReturned (OSError "failed to create file watcher"),
              set_fsWatcher None s, [MsgFailedCreateWatcher])
      /\ Stop (set_fsWatcher None s) = Ok (None, set_fsWatcher None s, [])).
Proof.
  split.
  - unfold Start. destruct (NewWatcherFails env) eqn:Hnew.
    + split; [done|]. intros _. unfold mbind, M_bind, modify, logf. simpl. eauto.
    + split; [|done]. intros (e & s' & l & E).
      unfold mbind, M_bind, modify, gets in E. simpl in E.
      edestruct (addRecursive_nil env (path (self s))
                   (set_fsWatcher (Some (mkFsWatcher ∅ false)) s))
        as (fw' & l' & E'); [by destruct s as [[]]|].
      replace (path (self (set_fsWatcher (Some (mkFsWatcher ∅ false)) s)))
        with (path (self s)) in E by (by destruct s as [[]]).
      rewrite E' in E. simpl in E. discriminate.
  - intros Hnew. split.
    + unfold Start. rewrite Hnew. done.
    + unfold Stop, mbind, M_bind, gets. by destruct s as [[]].
Qed.

(** ** What the initial walk registers *)

(** X13. The walk of [addRecursive] registers regular files as well as
    directories: after [Start], every file that lies directly in the root
    directory is watched, hidden files included, unless the operating
    system refuses the watch. The path that is watched is the one
    [filepath.WalkDir] makes, [filepath.Join] of the root and the name in
    clean form: for the root [/inbox/] the file [todo.md] is watched as
    [/inbox/todo.md]. *)
Theorem Start_registers_files_of_root
    (env : Env) (root name : string) (readErr : bool)
    (entries : list DirEntry) (file : string) :
  NewWatcherFails env = false ->
  Lstat env root = Some (Dir name readErr entries) ->
  File file ∈ entries ->
  AddFails env (filepath.Join root file) = false ->
  exists s' l fw',
    Start env (New root) = Ok (StartWaiting, s', l)
    /\ fsWatcher (self s') = Some fw'
    /\ filepath.Join root file ∈ watches fw'.
Proof.
  intros Hnew Hroot Hin Hadd.
  destruct (Start_registers_targets env root _ Hnew Hroot)
    as (s' & l & fw' & E & Hfw & Hw & _).
  exists s', l, fw'. split; [exact E|]. split; [exact Hfw|].
  apply Hw. split; [|exact Hadd].
  apply list_elem_of_fmap. exists (filepath.Join root file, File file).
  split; [done|]. cbn [targets].
  assert (skipped root root (Dir name readErr entries) = false) as ->.
  { unfold skipped. rewrite String.eqb_refl. simpl. by rewrite !andb_false_r. }
  right. apply list_elem_of_In, in_flat_map. exists (File file).
  split; [by apply list_elem_of_In|]. simpl. by left.
Qed.

(** ** Strings *)

Lemma string_length_app s1 s2 :
  String.length (String.append s1 s2) = (String.length s1 + String.length s2)%nat.
Proof. induction s1 as [|c s1 IH]; simpl; [done|by rewrite IH]. Qed.

Lemma string_get_app_r s1 s2 n :
  String.get (String.length s1 + n) (String.append s1 s2) = String.get n s2.
Proof. induction s1 as [|c s1 IH]; simpl; done. Qed.

Lemma string_get_app_l s1 s2 n :
  (n < String.length s1)%nat ->
  String.get n (String.append s1 s2) = String.get n s1.
Proof.
  revert n. induction s1 as [|c s1 IH]; intros n Hn; simpl in *; [lia|].
  destruct n as [|n]; [done|]. apply IH. lia.
Qed.

Lemma string_get_lt s n :
  (n < String.length s)%nat -> exists c, String.get n s = Some c.
Proof.
  revert n. induction s as [|c s IH]; intros n Hn; simpl in *; [lia|].
  destruct n as [|n]; [eauto|]. apply IH. lia.
Qed.

Lemma string_get_Some_lt s n c :
  String.get n s = Some c -> (n < String.length s)%nat.
Proof.
  revert n. induction s as [|c' s IH]; intros n Hn; simpl in *; [done|].
  destruct n as [|n]; [lia|]. apply IH in Hn. lia.
Qed.

Lemma substring_app_r s1 s2 i k :
  String.substring (String.length s1 + i) k (String.append s1 s2)
  = String.substring i k s2.
Proof. induction s1 as [|c s1 IH]; simpl; done. Qed.

Lemma substring_all s : String.substring 0 (String.length s) s = s.
Proof. induction s as [|c s IH]; simpl; [done|by rewrite IH]. Qed.

Lemma substring_split s i :
  (i <= String.length s)%nat ->
  s = String.append (String.substring 0 i s)
        (String.substring i (String.length s - i) s).
Proof.
  revert i. induction s as [|c s IH]; intros i Hi; simpl in *.
  - by destruct i.
  - destruct i as [|i]; simpl.
    + by rewrite substring_all.
    + change (String c s = String c (String.append (String.substring 0 i s)
                (String.substring i (String.length s - i) s))).
      f_equal. apply IH. lia.
Qed.

Lemma slice_from_app_r s1 s2 i :
  (i <= String.length s2)%nat ->
  filepath.slice_from (String.length s1 + i) (String.append s1 s2)
  = filepath.slice_from i s2.
Proof.
  intros Hi. unfold filepath.slice_from.
  rewrite string_length_app, substring_app_r. f_equal. lia.
Qed.

Lemma has_separator_get s i c :
  has_separator s = false -> String.get i s = Some c ->
  filepath.IsPathSeparator c = false.
Proof.
  revert i. induction s as [|c' s IH]; intros i Hs Hg; simpl in *; [done|].
  apply orb_false_iff in Hs as [Hc Hs].
  destruct i as [|i]; [by simplify_eq|]. by eapply IH.
Qed.

Lemma string_nonempty_length s :
  s <> EmptyString -> (0 < String.length s)%nat.
Proof. destruct s; simpl; [done|lia]. Qed.

Lemma string_app_slash d n :
  String.append d (String "/" n) = String.append (String.append d "/") n.
Proof.
  induction d as [|c d IH]; [done|].
  change (String c (String.append d (String "/" n))
          = String c (String.append (String.append d "/") n)).
  by rewrite IH.
Qed.

(** ** [filepath.Ext] and [filepath.Base] of the last element *)

Section last_element.

Variables (dir name : string).
Hypothesis name_no_sep : has_separator name = false.

Let pre := String.append dir "/".
Let full := String.append dir (String "/" name).

Lemma full_eq : full = String.append pre name.
Proof. apply string_app_slash. Qed.

Lemma pre_length : String.length pre = S (String.length dir).
Proof. unfold pre. rewrite string_length_app. simpl. lia. Qed.

Lemma pre_last : forall s2, String.get (String.length dir) (String.append pre s2) = Some "/"%char.
Proof.
  intros s2. rewrite string_get_app_l by (rewrite pre_length; lia).
  unfold pre. replace (String.length dir) with (String.length dir + 0)%nat by lia.
  by rewrite string_get_app_r.
Qed.

Lemma Ext_from_last_element n :
  (n <= String.length name)%nat ->
  filepath.Ext_from full (String.length pre + n) = filepath.Ext_from name n.
Proof.
  rewrite full_eq. induction n as [|n IH]; intros Hn.
  - rewrite Nat.add_0_r, pre_length. cbn [filepath.Ext_from].
    by rewrite pre_last.
  - rewrite Nat.add_succ_r. cbn [filepath.Ext_from].
    rewrite string_get_app_r.
    destruct (string_get_lt name n) as [c Hc]; [lia|]. rewrite Hc.
    rewrite (has_separator_get _ _ _ name_no_sep Hc).
    destruct (Ascii.eqb c "."); [|apply IH; lia].
    apply slice_from_app_r. lia.
Qed.

Lemma Ext_last_element : filepath.Ext full = filepath.Ext name.
Proof.
  unfold filepath.Ext. rewrite <- Ext_from_last_element by done.
  by rewrite full_eq, string_length_app.
Qed.

Lemma last_element_start_full n :
  (n <= String.length name)%nat ->
  filepath.last_element_start full (String.length pre + n) = String.length pre.
Proof.
  rewrite full_eq. induction n as [|n IH]; intros Hn.
  - rewrite Nat.add_0_r, pre_length. cbn [filepath.last_element_start].
    by rewrite pre_last.
  - rewrite Nat.add_succ_r. cbn [filepath.last_element_start].
    rewrite string_get_app_r.
    destruct (string_get_lt name n) as [c Hc]; [lia|]. rewrite Hc.
    rewrite (has_separator_get _ _ _ name_no_sep Hc). apply IH. lia.
Qed.

Lemma last_element_start_name n :
  filepath.last_element_start name n = 0%nat.
Proof.
  induction n as [|n IH]; [done|]. cbn [filepath.last_element_start].
  destruct (String.get n name) as [c|] eqn:Hc; [|done].
  by rewrite (has_separator_get _ _ _ name_no_sep Hc).
Qed.

Lemma strip_trailing_no_sep s :
  (forall c, String.get (String.length s - 1) s = Some c ->
             filepath.IsPathSeparator c = false) ->
  filepath.strip_trailing s (String.length s) = String.length s.
Proof.
  intros H. destruct (String.length s) as [|n] eqn:Hl; [done|].
  cbn [filepath.strip_trailing].
  destruct (String.get n s) as [c|] eqn:Hc; [|done].
  rewrite H; [done|]. by replace (S n - 1)%nat with n by lia.
Qed.

Hypothesis name_nonempty : name <> EmptyString.

Lemma name_length_pos : (0 < String.length name)%nat.
Proof. by apply string_nonempty_length. Qed.

Lemma Base_name : filepath.Base name = name.
Proof.
  unfold filepath.Base.
  destruct (String.eqb_spec name EmptyString) as [?|_]; [done|].
  rewrite strip_trailing_no_sep
    by (intros c Hc; by apply (has_separator_get _ _ _ name_no_sep Hc)).
  unfold filepath.slice_to. rewrite substring_all.
  rewrite last_element_start_name. unfold filepath.slice_from.
  rewrite Nat.sub_0_r, substring_all.
  by destruct (String.eqb_spec name EmptyString).
Qed.

Lemma Base_last_element : filepath.Base full = name.
Proof.
  pose proof name_length_pos as Hpos.
  unfold filepath.Base.
  destruct (String.eqb_spec full EmptyString) as [Hf|_].
  { apply (f_equal String.length) in Hf. rewrite full_eq, string_length_app in Hf.
    simpl in Hf. lia. }
  rewrite strip_trailing_no_sep.
  2:{ intros c. rewrite full_eq, string_length_app.
      replace (String.length pre + String.length name - 1)%nat
        with (String.length pre + (String.length name - 1))%nat by lia.
      rewrite string_get_app_r. intros Hc.
      by apply (has_separator_get _ _ _ name_no_sep Hc). }
  unfold filepath.slice_to. rewrite substring_all.
  replace (String.length full) with (String.length pre + String.length name)%nat
    by (by rewrite full_eq, string_length_app).
  rewrite last_element_start_full by done.
  rewrite full_eq.
  assert (Hs : filepath.slice_from (String.length pre) (String.append pre name)
               = name).
  { replace (String.length pre) with (String.length pre + 0)%nat at 1 by lia.
    rewrite slice_from_app_r by lia.
    unfold filepath.slice_from. by rewrite Nat.sub_0_r, substring_all. }
  rewrite !Hs.
  by destruct (String.eqb_spec name EmptyString).
Qed.

End last_element.

(** X14. Whether a path is a markdown file is decided by its last element
    alone. For a name that is not empty and holds no separator, the path
    [dir/name] has the extension and the base name of [name], whatever
    [dir] is: a markdown file below a hidden directory qualifies, and a
    hidden or backup file does not qualify wherever it lies. *)
Theorem isMarkdownFile_depends_on_last_element (dir name : string) :
  name <> EmptyString ->
  has_separator name = false ->
  let full := String.append dir (String "/" name) in
  filepath.Ext full = filepath.Ext name
  /\ filepath.Base full = name
  /\ isMarkdownFile full = isMarkdownFile name.
Proof.
  intros Hne Hsep full.
  pose proof (Ext_last_element dir name Hsep) as HE.
  pose proof (Base_last_element dir name Hsep Hne) as HB.
  pose proof (Base_name name Hsep Hne) as HN.
  split; [exact HE|]. split; [exact HB|].
  subst full. unfold isMarkdownFile. by rewrite HE, HB, HN.
Qed.

(** ** The extension [.md] *)

Lemma Ext_from_slice p n e :
  filepath.Ext_from p n = e -> e <> EmptyString ->
  exists i, (i < n)%nat /\ e = filepath.slice_from i p.
Proof.
  induction n as [|n IH]; intros He Hne; cbn [filepath.Ext_from] in He.
  - by subst.
  - destruct (String.get n p) as [c|]; [|by subst].
    destruct (filepath.IsPathSeparator c); [by subst|].
    destruct (Ascii.eqb c ".").
    + exists n. split; [lia|done].
    + destruct (IH He Hne) as (i & Hi & ->). exists i. split; [lia|done].
Qed.

Lemma Ext_suffix p e :
  filepath.Ext p = e -> e <> EmptyString ->
  exists stem, p = String.append stem e.
Proof.
  intros He Hne. destruct (Ext_from_slice _ _ _ He Hne) as (i & Hi & ->).
  exists (String.substring 0 i p). apply substring_split. lia.
Qed.

Lemma Ext_app_md stem : filepath.Ext (String.append stem ".md") = ".md"%string.
Proof.
  unfold filepath.Ext. rewrite string_length_app.
  change (String.length ".md") with 3%nat.
  replace (String.length stem + 3)%nat with (S (String.length stem + 2)) by lia.
  cbn [filepath.Ext_from]. rewrite string_get_app_r. cbn.
  replace (String.length stem + 2)%nat with (S (String.length stem + 1)) by lia.
  cbn [filepath.Ext_from]. rewrite string_get_app_r. cbn.
  replace (String.length stem + 1)%nat with (S (String.length stem + 0)) by lia.
  cbn [filepath.Ext_from]. rewrite string_get_app_r. cbn.
  by rewrite slice_from_app_r by (simpl; lia).
Qed.

(** X15. In terms of the bytes of the path: a path that [isMarkdownFile]
    accepts ends in [.md], and something comes before the [.md]. For a
    name without separator the test is exactly: the name ends in [.md] and
    starts with neither ["."] nor ["~"]. *)
Theorem isMarkdownFile_by_bytes (name : string) :
  has_separator name = false ->
  (isMarkdownFile name = true
   <-> (exists stem, name = String.append stem ".md")
       /\ strings.HasPrefix name "." = false
       /\ strings.HasPrefix name "~" = false)
  /\ (forall p, isMarkdownFile p = true ->
        exists stem, stem <> EmptyString /\ p = String.append stem ".md").
Proof.
  intros Hsep. split.
  - split.
    + intros Hm. unfold isMarkdownFile in Hm.
      destruct (String.eqb_spec (filepath.Ext name) ".md") as [He|]; [|done].
      simpl in Hm.
      assert (Hne : name <> EmptyString) by (intros ->; done).
      rewrite (Base_name name Hsep Hne) in Hm.
      split; [by apply (Ext_suffix _ _ He)|].
      by destruct (strings.HasPrefix name "."), (strings.HasPrefix name "~").
    + intros ([stem ->] & Hdot & Htilde).
      assert (Hne : String.append stem ".md" <> EmptyString).
      { intros E. apply (f_equal String.length) in E.
        rewrite string_length_app in E. simpl in E. lia. }
      unfold isMarkdownFile. rewrite Ext_app_md. simpl.
      rewrite (Base_name _ Hsep Hne). by rewrite Hdot, Htilde.
  - intros p Hm. unfold isMarkdownFile in Hm.
    destruct (String.eqb_spec (filepath.Ext p) ".md") as [He|]; [|done].
    destruct (Ext_suffix _ _ He) as [stem ->]; [done|].
    exists stem. split; [|done]. intros ->. done.
Qed.

(** ** The root of the walk *)

(** X12. After [Start] the root is watched exactly when it exists and the
    operating system accepts the watch, also when the name of the root
    starts with a dot. When the root does not exist nothing at all is
    watched. *)
Theorem Start_watches_root_iff (env : Env) (root : string) :
  NewWatcherFails env = false ->
  exists s' l fw',
    Start env (New root) = Ok (StartWaiting, s', l)
    /\ fsWatcher (self s') = Some fw'
    /\ (root ∈ watches fw'
        <-> is_Some (Lstat env root) /\ AddFails env root = false)
    /\ (Lstat env root = None -> watches fw' = ∅).
Proof.
  intros Hnew. destruct (Lstat env root) as [d|] eqn:Hroot.
  - destruct (Start_registers_targets env root d Hnew Hroot)
      as (s' & l & fw' & E & Hfw & Hw & _).
    exists s', l, fw'. split; [exact E|]. split; [exact Hfw|].
    split; [|done]. rewrite Hw. split.
    + intros [_ Ha]. split; [by eexists|done].
    + intros [_ Ha]. split; [|done].
      apply list_elem_of_fmap. exists (root, d). split; [done|].
      assert (skipped root root d = false) as Hs.
      { unfold skipped. rewrite String.eqb_refl. simpl. by rewrite !andb_false_r. }
      destruct d; cbn [targets]; rewrite Hs; by left.
  - eexists _, _, (mkFsWatcher ∅ false). split.
    + unfold Start. rewrite Hnew. unfold mbind, M_bind, modify, gets. simpl.
      unfold addRecursive, WalkDir. rewrite Hroot. simpl. reflexivity.
    + split; [done|]. split; [|done]. simpl. split.
      * intros H. by apply not_elem_of_empty in H.
      * intros [[? ?] _]. done.
Qed.

(** ** The goroutine [watch] *)

Lemma watch_loop_spec rs : forall s,
  wf s -> is_Some (fsWatcher (self s)) ->
  exists s' l0 l,
    ingest (heard rs) s = Ok (tt, s', l0)
    /\ watch_loop rs s
       = Ok (if closes rs then WatchReturned else WatchSelecting, s', l)
    /\ lines_of_bufferEvent l = l0
    /\ lines_of_errors l = reported rs
    /\ wf s'.
Proof.
  induction rs as [|r rs IH]; intros s Hwf Hfw.
  - exists s, [], []. destruct Hfw as [fw Hfw]. cbn. by rewrite Hfw.
  - pose proof Hfw as [fw Hfw']. destruct r as [raw| |err|].
    + destruct (bufferEvent_Ok (raw_env raw) (raw_now raw) (raw_event raw) s Hwf Hfw)
        as (s1 & l1 & E1 & Hwf1 & Hfw1).
      destruct (IH s1 Hwf1 Hfw1) as (s' & l0 & l & Ei & Ew & Hl & He & Hwf').
      exists s', (l1 ++ l0), ((LineOf <$> l1) ++ l).
      split; [cbn [heard]; by rewrite (ingest_cons _ _ _ _ _ E1), Ei|].
      split; [cbn; by rewrite Hfw', E1, Ew|].
      unfold lines_of_bufferEvent, lines_of_errors in *.
      rewrite !omap_app, Hl, He. split; [|split; [|done]].
      * f_equal. clear. induction l1 as [|m l1 IH]; [done|]. cbn. by rewrite IH.
      * cbn [reported].
        replace (omap _ (LineOf <$> l1)) with (@nil string); [done|].
        clear. induction l1 as [|m l1 IH]; [done|]. cbn. by rewrite <- IH.
    + exists s, [], []. cbn. by rewrite Hfw'.
    + destruct (IH s Hwf Hfw) as (s' & l0 & l & Ei & Ew & Hl & He & Hwf').
      exists s', l0, (LineError err :: l).
      split; [done|]. split; [cbn; by rewrite Hfw', Ew|].
      unfold lines_of_bufferEvent, lines_of_errors in *. cbn.
      by rewrite Hl, He.
    + exists s, [], []. cbn. by rewrite Hfw'.
Qed.

(** X16. The goroutine [watch] on a watcher that was started. It handles
    what it receives until a channel is found closed, and returns then;
    what comes after is never handled. An error of the notification source
    is logged and nothing else: the state of the watcher after the loop is
    the one that [bufferEvent] leaves on the raw events received, one after
    the other. No event makes the goroutine panic. Before [Start] has set
    the notification source, the first [select] is a nil dereference. *)
Theorem watch_handles_events_until_close (rs : list Received) (s : State) :
  wf s ->
  (is_Some (fsWatcher (self s)) ->
   exists s' l0 l,
     ingest (heard rs) s = Ok (tt, s', l0)
     /\ watch rs s
        = Ok (if closes rs then WatchReturned else WatchSelecting, s',
              LineWatchStarted (path (self s)) :: l)
     /\ lines_of_bufferEvent l = l0
     /\ lines_of_errors l = reported rs
     /\ wf s')
  /\ (fsWatcher (self s) = None -> watch rs s = Panic nil_deref)
  /\ (forall rs', heard (rs ++ RecvEventsClosed :: rs') = heard rs
                  /\ heard (rs ++ RecvErrorsClosed :: rs') = heard rs
                  /\ closes (rs ++ RecvEventsClosed :: rs') = true
                  /\ closes (rs ++ RecvErrorsClosed :: rs') = true).
Proof.
  intros Hwf. split; [|split].
  - intros Hfw.
    destruct (watch_loop_spec rs s Hwf Hfw) as (s' & l0 & l & Ei & Ew & Hl & He & Hwf').
    exists s', l0, l. unfold watch. by rewrite Ew.
  - intros Hfw. unfold watch. destruct rs; cbn; by rewrite Hfw.
  - intros rs'. induction rs as [|[raw| |err|] rs IH]; cbn; [done| |done|exact IH|done].
    destruct IH as (-> & -> & -> & ->). done.
Qed.

(** ** [LoadFile] and the watcher *)

Lemma Ext_app_MD stem : filepath.Ext (String.append stem ".MD") = ".MD"%string.
Proof.
  unfold filepath.Ext. rewrite string_length_app.
  change (String.length ".MD") with 3%nat.
  replace (String.length stem + 3)%nat with (S (String.length stem + 2)) by lia.
  cbn [filepath.Ext_from]. rewrite string_get_app_r. cbn.
  replace (String.length stem + 2)%nat with (S (String.length stem + 1)) by lia.
  cbn [filepath.Ext_from]. rewrite string_get_app_r. cbn.
  replace (String.length stem + 1)%nat with (S (String.length stem + 0)) by lia.
  cbn [filepath.Ext_from]. rewrite string_get_app_r. cbn.
  by rewrite slice_from_app_r by (simpl; lia).
Qed.

(** X17. [LoadFile] and the watcher do not agree on what a markdown file
    is. Every path that [isMarkdownFile] accepts is a supported type for
    [LoadFile]. The converse fails: [LoadFile] compares the extension
    without regard to case, so it loads every path that ends in [.MD],
    which the watcher ignores. A file that is loaded carries the path that
    was asked for, the content read and the checksum of that content. *)
Theorem LoadFile_supports_what_watcher_accepts
    (sha256_hex : string -> string) (Exists : string -> bool)
    (ReadFile : string -> option string) :
  (forall p, isMarkdownFile p = true ->
     loaders.LoadFile sha256_hex Exists ReadFile p
     = loaders.LoadMarkdownFile sha256_hex Exists ReadFile p)
  /\ (forall stem,
        isMarkdownFile (String.append stem ".MD") = false
        /\ loaders.LoadFile sha256_hex Exists ReadFile (String.append stem ".MD")
           = loaders.LoadMarkdownFile sha256_hex Exists ReadFile
               (String.append stem ".MD"))
  /\ (forall p f,
        loaders.LoadFile sha256_hex Exists ReadFile p = inr f ->
        loaders.ToLower (filepath.Ext p) = ".md"%string
        /\ Exists p = true
        /\ ReadFile p = Some (loaders.Content f)
        /\ loaders.Path f = p
        /\ loaders.Checksum f = sha256_hex (loaders.Content f)).
Proof.
  split; [|split].
  - intros p Hm. unfold isMarkdownFile in Hm.
    destruct (String.eqb_spec (filepath.Ext p) ".md") as [He|]; [|done].
    unfold loaders.LoadFile. by rewrite He.
  - intros stem. split.
    + unfold isMarkdownFile. by rewrite Ext_app_MD.
    + unfold loaders.LoadFile. by rewrite Ext_app_MD.
  - intros p f. unfold loaders.LoadFile, loaders.LoadMarkdownFile.
    destruct (String.eqb_spec (loaders.ToLower (filepath.Ext p)) ".md") as [He|];
      [|done].
    destruct (Exists p); [|done]. simpl.
    destruct (ReadFile p) as [content|]; [|done].
    intros [= <-]. done.
Qed.

(** ** The properties on the vault *)

Lemma two_notes_wf :
  wf Inbox.two_notes /\ is_Some (fsWatcher (self Inbox.two_notes)).
Proof.
  destruct note_created_wf as [Hwf Hfw].
  destruct (bufferEvent_Ok Vault.env 10
              (fsnotify.mkEvent Inbox.other_note fsnotify.Write) _ Hwf Hfw)
    as (s' & l & E & Hwf' & Hfw').
  unfold Inbox.two_notes. by rewrite E.
Qed.

Lemma bufferEvent_panics_iff_witness :
  wf (New "/vault")
  /\ exists why,
       bufferEvent Vault.env 0 (fsnotify.mkEvent "/vault/.trash" fsnotify.Create)
         (New "/vault") = Panic why.
Proof.
  split; [apply New_wf|].
  destruct (bufferEvent_panics_iff Vault.env 0
              (fsnotify.mkEvent "/vault/.trash" fsnotify.Create)
              (New "/vault") (New_wf "/vault")) as [[_ H] _].
  apply H. split; [reflexivity|]. split; reflexivity.
Defined.

Lemma burst_flags_witness :
  wf Vault.started
  /\ isMarkdownFile Vault.note = true
  /\ isDirectory Vault.env Vault.note = false
  /\ exists s' l ptr e',
       ingest (burst Vault.env Vault.note
                 [(0, fsnotify.Create); (10, fsnotify.Write)]) Vault.started
         = Ok (tt, s', l)
       /\ eventBuffer (self s') !! Vault.note = Some ptr
       /\ heap s' !! ptr = Some e'
       /\ isNew e' = true /\ isModified e' = true /\ isDeleted e' = false
       /\ lastSeen e' = 10.
Proof.
  destruct started_wf as [H1 _].
  split; [exact H1|]. split; [reflexivity|]. split; [reflexivity|].
  pose proof (burst_flags_are_union_of_bits Vault.env Vault.note Vault.started
                0 fsnotify.Create [(10, fsnotify.Write)] H1 eq_refl eq_refl) as H.
  cbv zeta in H.
  destruct H as [(s' & l & ptr & e' & E & Hk & Hp & Hn & Hm & Hd & Ht) _].
  exists s', l, ptr, e'. split; [exact E|]. split; [exact Hk|]. split; [exact Hp|].
  rewrite Hn, Hm, Hd, Ht. vm_compute. repeat split.
Defined.

Lemma no_sweep_within_quiet_period_witness :
  wf Vault.started
  /\ isMarkdownFile Vault.note = true
  /\ isDirectory Vault.env Vault.note = false
  /\ exists s' l t',
       bufferEvent Vault.env 0 (fsnotify.mkEvent Vault.note fsnotify.Create)
         Vault.started = Ok (tt, s', l)
       /\ debounceTimer (self s') = Some t'
       /\ timerExpiry t' 99999999 [Vault.note] s' = Ok (tt, s', []).
Proof.
  destruct started_wf as [H1 _].
  split; [exact H1|]. split; [reflexivity|]. split; [reflexivity|].
  destruct (no_sweep_within_quiet_period Vault.env 0
              (fsnotify.mkEvent Vault.note fsnotify.Create) Vault.started
              H1 eq_refl eq_refl) as (s' & l & t' & E & Ht & Hquiet & _).
  exists s', l, t'. split; [exact E|]. split; [exact Ht|].
  apply Hquiet. lia.
Defined.

Lemma stale_entry_is_lost_witness :
  wf Vault.note_created
  /\ is_Some (fsWatcher (self Vault.note_created))
  /\ Forall (fun r => fsnotify.Name (raw_event r) <> Vault.note)
       [mkRaw Vault.env 10 (fsnotify.mkEvent Inbox.other_note fsnotify.Write)]
  /\ eventBuffer (self Vault.note_created) !! Vault.note = Some 0%nat
  /\ heap Vault.note_created !! 0%nat
     = Some (mkFileEvent Vault.note true false false 0)
  /\ exists s' l s'' log,
       ingest [mkRaw Vault.env 10 (fsnotify.mkEvent Inbox.other_note fsnotify.Write)]
         Vault.note_created = Ok (tt, s', l)
       /\ processBufferedEvents 5000000001 (pending s') s' = Ok (tt, s'', log)
       /\ dispatched_for Vault.note log = []
       /\ eventBuffer (self s'') !! Vault.note = None.
Proof.
  destruct note_created_wf as [H1 H2].
  assert (H3 : Forall (fun r => fsnotify.Name (raw_event r) <> Vault.note)
                 [mkRaw Vault.env 10
                    (fsnotify.mkEvent Inbox.other_note fsnotify.Write)]).
  { apply List.Forall_cons; [discriminate|apply List.Forall_nil]. }
  assert (H4 : eventBuffer (self Vault.note_created) !! Vault.note = Some 0%nat)
    by (vm_compute; reflexivity).
  assert (H5 : heap Vault.note_created !! 0%nat
               = Some (mkFileEvent Vault.note true false false 0))
    by (vm_compute; reflexivity).
  split; [exact H1|]. split; [exact H2|]. split; [exact H3|].
  split; [exact H4|]. split; [exact H5|].
  destruct (stale_entry_is_lost_silently _ Vault.note_created Vault.note 0%nat _
              H1 H2 H3 H4 H5) as (s' & l & E & _ & _ & Hsweep).
  destruct (Hsweep 5000000001 (pending s')) as (s'' & log & E' & Hd & _ & Hk);
    [reflexivity|simpl; lia|].
  exists s', l, s'', log. split; [exact E|]. split; [exact E'|].
  split; [exact Hd|exact Hk].
Defined.

Lemma sweep_is_independent_of_map_order_witness :
  wf Inbox.two_notes
  /\ [Vault.note; Inbox.other_note] ≡ₚ pending Inbox.two_notes
  /\ [Inbox.other_note; Vault.note] ≡ₚ pending Inbox.two_notes
  /\ exists s' log1 log2,
       processBufferedEvents 20 [Vault.note; Inbox.other_note] Inbox.two_notes
         = Ok (tt, s', log1)
       /\ processBufferedEvents 20 [Inbox.other_note; Vault.note] Inbox.two_notes
          = Ok (tt, s', log2)
       /\ log1 ≡ₚ log2.
Proof.
  destruct two_notes_wf as [H1 _].
  assert (H2 : [Vault.note; Inbox.other_note] ≡ₚ pending Inbox.two_notes)
    by decide_by_computation.
  assert (H3 : [Inbox.other_note; Vault.note] ≡ₚ pending Inbox.two_notes)
    by decide_by_computation.
  split; [exact H1|]. split; [exact H2|]. split; [exact H3|].
  destruct (sweep_is_independent_of_map_order Inbox.two_notes 20 _ _ H1 H2 H3)
    as (s' & log1 & log2 & E1 & E2 & Hl & _).
  exists s', log1, log2. split; [exact E1|]. split; [exact E2|exact Hl].
Defined.

Lemma sweep_dispatches_once_witness :
  wf Inbox.two_notes
  /\ [Vault.note; Inbox.other_note] ≡ₚ pending Inbox.two_notes
  /\ exists s' log,
       processBufferedEvents 20 [Vault.note; Inbox.other_note] Inbox.two_notes
         = Ok (tt, s', log)
       /\ NoDup (dispatched log).*2
       /\ (length (dispatched log) <= 2)%nat.
Proof.
  destruct two_notes_wf as [H1 _].
  assert (H2 : [Vault.note; Inbox.other_note] ≡ₚ pending Inbox.two_notes)
    by decide_by_computation.
  split; [exact H1|]. split; [exact H2|].
  destruct (sweep_dispatches_once_per_pending_path Inbox.two_notes 20 _ H1 H2)
    as (s' & log & E & Hnd & _ & Hlen).
  exists s', log. split; [exact E|]. split; [exact Hnd|].
  replace (size (eventBuffer (self Inbox.two_notes))) with 2%nat in Hlen
    by (vm_compute; reflexivity).
  exact Hlen.
Defined.

Lemma directory_event_witness :
  isDirectory Vault.env "/vault/.trash" = true
  /\ exists fw fw' l,
       fsWatcher (self Vault.started) = Some fw
       /\ bufferEvent Vault.env 0
            (fsnotify.mkEvent "/vault/.trash" fsnotify.Remove) Vault.started
          = Ok (tt, set_fsWatcher (Some fw') Vault.started, l)
       /\ fw' = fw /\ l = [].
Proof.
  split; [reflexivity|].
  destruct (fsWatcher (self Vault.started)) as [fw|] eqn:Hfw;
    [|by vm_compute in Hfw].
  destruct (directory_event_only_touches_source Vault.env 0
              (fsnotify.mkEvent "/vault/.trash" fsnotify.Remove)
              Vault.started fw eq_refl Hfw) as (fw' & l & E & _ & Hno & _).
  destruct (Hno eq_refl) as [Hfw' Hl].
  exists fw, fw', l. split; [reflexivity|]. split; [exact E|].
  split; [exact Hfw'|exact Hl].
Defined.

Lemma Stop_twice_witness :
  done (self Vault.started) = ChanOpen
  /\ exists fw,
       fsWatcher (self Vault.started) = Some fw
       /\ (Stop ;; Stop) Vault.started = Panic "close of closed channel".
Proof.
  split; [vm_compute; reflexivity|].
  destruct (fsWatcher (self Vault.started)) as [fw|] eqn:Hfw;
    [|by vm_compute in Hfw].
  destruct (Stop_twice_panics_on_started_watcher Vault.started fw Hfw)
    as (s1 & _ & _ & E); [vm_compute; reflexivity|].
  exists fw. split; [reflexivity|exact E].
Defined.

Lemma Stop_does_not_cancel_witness :
  wf Vault.note_created
  /\ done (self Vault.note_created) = ChanOpen
  /\ timers Vault.note_created !! 0%nat = Some (mkTimer 100000000 TimerActive)
  /\ [Vault.note] ≡ₚ pending Vault.note_created
  /\ exists fw s1 s2 log,
       fsWatcher (self Vault.note_created) = Some fw
       /\ Stop Vault.note_created = Ok (None, s1, [])
       /\ timerExpiry 0%nat 100000000 [Vault.note] s1 = Ok (tt, s2, log)
       /\ dispatched_for Vault.note log = [CreatedEmpty].
Proof.
  destruct note_created_wf as [H1 _].
  assert (H2 : done (self Vault.note_created) = ChanOpen)
    by (vm_compute; reflexivity).
  assert (H3 : timers Vault.note_created !! 0%nat
               = Some (mkTimer 100000000 TimerActive))
    by (vm_compute; reflexivity).
  assert (H4 : [Vault.note] ≡ₚ pending Vault.note_created)
    by decide_by_computation.
  split; [exact H1|]. split; [exact H2|]. split; [exact H3|]. split; [exact H4|].
  destruct (fsWatcher (self Vault.note_created)) as [fw|] eqn:Hfw;
    [|by vm_compute in Hfw].
  destruct (Stop_does_not_cancel_pending_sweep Vault.note_created fw 0%nat
              (mkTimer 100000000 TimerActive) 100000000 [Vault.note]
              H1 Hfw H2 H3 eq_refl)
    as (s1 & E1 & _ & _ & s2 & log & E2 & _ & Hd); [simpl; lia|exact H4|].
  exists fw, s1, s2, log. split; [reflexivity|]. split; [exact E1|].
  split; [exact E2|].
  rewrite (Hd Vault.note 0%nat (mkFileEvent Vault.note true false false 0)).
  - vm_compute. reflexivity.
  - vm_compute. reflexivity.
  - vm_compute. reflexivity.
Defined.

Lemma Start_then_Stop_witness :
  NewWatcherFails Vault.env = false
  /\ exists s1 l1 s2,
       Start Vault.env (New "/vault") = Ok (StartWaiting, s1, l1)
       /\ Stop s1 = Ok (None, s2, [])
       /\ Start_unblocked s2 = true.
Proof.
  split; [reflexivity|].
  destruct (Start_then_Stop_returns Vault.env "/vault" eq_refl)
    as [(s1 & l1 & s2 & E & _ & E' & Hu & _) _].
  exists s1, l1, s2. split; [exact E|]. split; [exact E'|exact Hu].
Defined.

Lemma Start_watches_root_witness :
  NewWatcherFails Vault.env = false
  /\ exists s' l fw',
       Start Vault.env (New "/vault") = Ok (StartWaiting, s', l)
       /\ fsWatcher (self s') = Some fw'
       /\ "/vault"%string ∈ watches fw'.
Proof.
  split; [reflexivity|].
  destruct (Start_watches_root_iff Vault.env "/vault" eq_refl)
    as (s' & l & fw' & E & Hfw & Hroot & _).
  exists s', l, fw'. split; [exact E|]. split; [exact Hfw|].
  apply Hroot. split; [by eexists|reflexivity].
Defined.

Lemma Start_registers_files_witness :
  NewWatcherFails Inbox.env = false
  /\ Lstat Inbox.env Inbox.root = Some Inbox.tree
  /\ File ".draft.md" ∈ [File "todo.md"; File ".draft.md"]
  /\ AddFails Inbox.env (filepath.Join Inbox.root ".draft.md") = false
  /\ exists s' l fw',
       Start Inbox.env (New "/inbox/") = Ok (StartWaiting, s', l)
       /\ fsWatcher (self s') = Some fw'
       /\ "/inbox/.draft.md"%string ∈ watches fw'.
Proof.
  assert (H3 : File ".draft.md" ∈ [File "todo.md"; File ".draft.md"]).
  { apply list_elem_of_In. right. left. reflexivity. }
  split; [reflexivity|]. split; [reflexivity|]. split; [exact H3|].
  split; [reflexivity|].
  exact (Start_registers_files_of_root Inbox.env Inbox.root "inbox" false
           [File "todo.md"; File ".draft.md"] ".draft.md"
           eq_refl eq_refl H3 eq_refl).
Defined.

Lemma isMarkdownFile_last_element_witness :
  has_separator "a.md" = false
  /\ filepath.Base "/vault/notes/a.md" = "a.md"%string
  /\ isMarkdownFile "/vault/notes/a.md" = isMarkdownFile "a.md".
Proof.
  split; [reflexivity|].
  assert (Hne : "a.md"%string <> EmptyString) by discriminate.
  pose proof (isMarkdownFile_depends_on_last_element "/vault/notes" "a.md"
                Hne eq_refl) as H.
  cbv zeta in H. destruct H as (_ & HB & HM).
  split; [exact HB|exact HM].
Defined.

Lemma isMarkdownFile_by_bytes_witness :
  has_separator "~a.md" = false
  /\ (isMarkdownFile "~a.md" = true
      <-> (exists stem, "~a.md"%string = String.append stem ".md")
          /\ strings.HasPrefix "~a.md" "." = false
          /\ strings.HasPrefix "~a.md" "~" = false).
Proof.
  split; [reflexivity|].
  destruct (isMarkdownFile_by_bytes "~a.md" eq_refl) as [H _]. exact H.
Defined.

Lemma watch_witness :
  wf Vault.started
  /\ exists s' l,
       watch [RecvEvent (mkRaw Vault.env 0
                           (fsnotify.mkEvent Vault.note fsnotify.Create));
              RecvError "queue overflow";
              RecvEventsClosed;
              RecvEvent (mkRaw Vault.env 10
                           (fsnotify.mkEvent Vault.note fsnotify.Remove))]
         Vault.started
       = Ok (WatchReturned, s', LineWatchStarted "/vault" :: l)
       /\ lines_of_errors l = ["queue overflow"%string]
       /\ wf s'.
Proof.
  destruct started_wf as [H1 H2]. split; [exact H1|].
  destruct (watch_handles_events_until_close
              [RecvEvent (mkRaw Vault.env 0
                            (fsnotify.mkEvent Vault.note fsnotify.Create));
               RecvError "queue overflow";
               RecvEventsClosed;
               RecvEvent (mkRaw Vault.env 10
                            (fsnotify.mkEvent Vault.note fsnotify.Remove))]
              Vault.started H1) as (H & _ & _).
  destruct (H H2) as (s' & l0 & l & _ & E & _ & He & Hwf).
  exists s', l. split; [exact E|]. split; [exact He|exact Hwf].
Defined.
